(** * SubSnipe: the CNAME resolution pipeline and the fingerprint classifier

    A shallow embedding of [main.go]: the fingerprint matcher
    [isVulnerableCNAME], the classifier [processCNAMEResult], the report
    writer [writeResults] and the goroutine structure of [checkCNAMEs].

    Go strings are byte sequences and are rendered as [string]; a Go map is a
    [gmap], and a [range] over it is a traversal of some permutation of its
    entries, since Go leaves the order of a map range unspecified. *)

From Stdlib Require Import Ascii.
From Stdlib Require String.
From stdpp Require Import gmap strings list fin_maps.

(** ** Package [strings] of the Go library *)

Module GoStrings.

(** [len(s) >= len(suffix) && s[len(s)-len(suffix):] == suffix] *)
Definition HasSuffix (s suffix : string) : bool :=
  (String.length suffix <=? String.length s) &&
  String.eqb
    (String.substring (String.length s - String.length suffix)
                      (String.length suffix) s)
    suffix.

(** [if HasSuffix(s, suffix) { return s[:len(s)-len(suffix)] }; return s] *)
Definition TrimSuffix (s suffix : string) : string :=
  if HasSuffix s suffix
  then String.substring 0 (String.length s - String.length suffix) s
  else s.

(** Width in bytes of the white-space rune a byte sequence starts with, [0]
    when it starts with none.  The white-space runes are those of
    [unicode.IsSpace]: the six ASCII ones, U+0085, U+00A0, U+1680,
    U+2000..U+200A, U+2028, U+2029, U+202F, U+205F and U+3000, in UTF-8. *)
Definition spaceWidth (bs : list N) : nat :=
  match bs with
  | (9 | 10 | 11 | 12 | 13 | 32)%N :: _ => 1
  | 194%N :: (133 | 160)%N :: _ => 2
  | 225%N :: 154%N :: 128%N :: _ => 3
  | 226%N :: 128%N :: b :: _ =>
      if (128 <=? b)%N && (b <=? 138)%N then 3
      else if (b =? 168)%N || (b =? 169)%N || (b =? 175)%N then 3 else 0
  | 226%N :: 129%N :: 159%N :: _ => 3
  | 227%N :: 128%N :: 128%N :: _ => 3
  | _ => 0
  end.

(** The same test on a byte sequence read backwards from its end. *)
Definition spaceWidthLast (rbs : list N) : nat :=
  match rbs with
  | (9 | 10 | 11 | 12 | 13 | 32)%N :: _ => 1
  | (133 | 160)%N :: 194%N :: _ => 2
  | 128%N :: 154%N :: 225%N :: _ => 3
  | 159%N :: 129%N :: 226%N :: _ => 3
  | 128%N :: 128%N :: 227%N :: _ => 3
  | b :: 128%N :: 226%N :: _ =>
      if (128 <=? b)%N && (b <=? 138)%N then 3
      else if (b =? 168)%N || (b =? 169)%N || (b =? 175)%N then 3 else 0
  | _ => 0
  end.

(** Strips leading white-space runes, [width] telling how many bytes the first
    one takes; [fuel] bounds the number of runes. *)
Fixpoint trimLeftSpace (width : list N -> nat) (fuel : nat)
    (bs : list N) : list N :=
  match fuel with
  | O => bs
  | S fuel' =>
      match width bs with
      | O => bs
      | w => trimLeftSpace width fuel' (drop w bs)
      end
  end.

Definition bytes (s : string) : list N :=
  N_of_ascii <$> String.list_ascii_of_string s.

Definition ofBytes (bs : list N) : string :=
  String.string_of_list_ascii (ascii_of_N <$> bs).

(** [strings.TrimSpace]: all leading and trailing white space removed. *)
Definition TrimSpace (s : string) : string :=
  let l := trimLeftSpace spaceWidth (String.length s) (bytes s) in
  ofBytes (reverse (trimLeftSpace spaceWidthLast (length l) (reverse l))).

End GoStrings.

Import GoStrings.

(** ** Data model *)

#[local] Set Warnings "-register-all".

(** What [encoding/json] decodes into an [interface{}]. Numbers and objects are
    never inspected by the classifier; they keep their source text. *)
Inductive value : Type :=
  | VNil
  | VBool (b : bool)
  | VNumber (literal : string)
  | VString (s : string)
  | VArray (elems : list value)
  | VObject (fields : list (string * value)).

(** One fingerprint, [map[string]interface{}]. *)
Abbreviation fingerprint := (gmap string value).

(** The loaded store, [map[string]map[string]interface{}]. *)
Abbreviation fingerprints := (gmap string (gmap string value)).

(** A [range] over a Go map visits every entry once, in an order the language
    leaves unspecified: [order] is one of the traversals of [m]. *)
Definition rangeOf (m : fingerprints) (order : list (string * fingerprint)) : Prop :=
  order ≡ₚ map_to_list m.

(** A function either returns or panics (a failed type assertion). *)
Inductive outcome (A : Type) : Type :=
  | Ret (a : A)
  | Panic.
Arguments Ret {A} a.
Arguments Panic {A}.

(** [cnameResult] stores the result of a CNAME query for a domain. *)
Record cnameResult : Type := mkResult {
  domain : string;
  cname : string;
  err : option string
}.

(** The package-level result lists. *)
Record buckets : Type := mkBuckets {
  found : list string;
  notFound : list string;
  isExploitable : list string;
  notExploitable : list string;
  unknownExploitability : list string
}.

Definition noBuckets : buckets := mkBuckets [] [] [] [] [].

(** ** [isVulnerableCNAME] *)

(** The inner loop [for _, c := range cnameList]: [c.(string)] panics on a
    non-string element; on the first pattern that is a suffix of [cname] the
    function returns [fingerprint["vulnerable"].(bool)], which panics when
    that field is absent or not a boolean.  [Ret None]: loop exhausted. *)
Fixpoint rangeCnameList (cname : string) (vulnerable : option value)
    (cnameList : list value) : outcome (option bool) :=
  match cnameList with
  | [] => Ret None
  | VString pattern :: rest =>
      if HasSuffix cname pattern then
        match vulnerable with
        | Some (VBool b) => Ret (Some b)
        | _ => Panic
        end
      else rangeCnameList cname vulnerable rest
  | _ :: _ => Panic
  end.

(** The outer loop [for _, fingerprint := range fingerprints], over the entries
    in the order the range visits them; [fingerprint["cname"].([]interface{})]
    panics when the field is absent or not an array. *)
Fixpoint rangeFingerprints (cname : string)
    (order : list (string * fingerprint)) : outcome (bool * bool) :=
  match order with
  | [] => Ret (false, false)
  | (_, fp) :: rest =>
      match fp !! "cname" with
      | Some (VArray cnameList) =>
          match rangeCnameList cname (fp !! "vulnerable") cnameList with
          | Panic => Panic
          | Ret (Some v) => Ret (true, v)
          | Ret None => rangeFingerprints cname rest
          end
      | _ => Panic
      end
  end.

Definition isVulnerableCNAME (cname : string)
    (order : list (string * fingerprint)) : outcome (bool * bool) :=
  let cname := TrimSuffix cname "." in
  rangeFingerprints cname order.

(** ** The classifier *)

(** Modelled from the spec: [ifThenElse] is called by [processCNAMEResult] but
    is not defined in [main.go]; the report line the spec expects for a
    vulnerable match ends in "vulnerable", the first of the two alternatives. *)
Definition ifThenElse (condition : bool) (a b : string) : string :=
  if condition then a else b.

(** Modelled from the spec: [appendResultBasedOnVulnerability] is called by
    [processCNAMEResult] but is not defined in [main.go]; the spec routes a
    match with [vulnerable = true] to Exploitable and one with
    [vulnerable = false] to NotExploitable. *)
Definition appendResultBasedOnVulnerability (vulnerable : bool) (msg : string)
    (g : buckets) : buckets :=
  if vulnerable
  then mkBuckets (found g) (notFound g) (isExploitable g ++ [msg])
                 (notExploitable g) (unknownExploitability g)
  else mkBuckets (found g) (notFound g) (isExploitable g)
                 (notExploitable g ++ [msg]) (unknownExploitability g).

Section Classifier.

(** The two helpers of the fallback path are defined outside [main.go]; each
    is an arbitrary function here.  [isServiceVulnerable] receives the store as
    the traversal its own range over the map would make. *)
Variable extractServiceName : string -> string.
Variable isServiceVulnerable :
  string -> list (string * fingerprint) -> bool * bool * string * string * bool.

(** [processCNAMEResult] against the package-level lists [g]; [dorder] and
    [sorder] are the traversals of the store made by the direct and by the
    service match. The calls to the logger are left out. *)
Definition processCNAMEResult (result : cnameResult)
    (dorder sorder : list (string * fingerprint)) (g : buckets) : outcome buckets :=
  if bool_decide (err result <> None) || String.eqb (cname result) "" then
    let notFoundMsg := "No CNAME record found for: " +:+ domain result in
    Ret (mkBuckets (found g) (notFound g ++ [notFoundMsg]) (isExploitable g)
                   (notExploitable g) (unknownExploitability g))
  else
    match isVulnerableCNAME (cname result) dorder with
    | Panic => Panic
    | Ret (directMatch, vulnerable) =>
        if directMatch then
          let foundMsg :=
            "CNAME for " +:+ domain result +:+ " is: " +:+ cname result +:+
            " (found matching fingerprint - " +:+
            ifThenElse vulnerable "vulnerable" "safe" +:+ ")" in
          Ret (appendResultBasedOnVulnerability vulnerable foundMsg g)
        else
          let sld := extractServiceName (cname result) in
          let '(serviceMatch, vulnerable, service, fingerprintText, hasNXDOMAINFlag) :=
            isServiceVulnerable sld sorder in
          if serviceMatch then
            let serviceMsg :=
              "CNAME for " +:+ domain result +:+ " is: " +:+ cname result +:+
              " (found potentially matching service '" +:+ service +:+ "' - " +:+
              ifThenElse vulnerable "vulnerable" "safe" +:+ ")" in
            Ret (appendResultBasedOnVulnerability vulnerable serviceMsg g)
          else
            let unknownMsg :=
              "CNAME for " +:+ domain result +:+ " is: " +:+ cname result in
            Ret (mkBuckets (found g) (notFound g) (isExploitable g)
                           (notExploitable g) (unknownExploitability g ++ [unknownMsg]))
    end.

End Classifier.

(** ** [writeResults] *)

Definition newline : string := String (ascii_of_nat 10) "".

(** [for _, item := range items { outputFile.WriteString("- " + item + "\n") }] *)
Fixpoint writeItems (items : list string) : string :=
  match items with
  | [] => ""
  | item :: rest => ("- " +:+ item +:+ newline) +:+ writeItems rest
  end.

(** The bytes [writeResults] writes to the output file, in order. *)
Definition writeResults (g : buckets) : string :=
  (if 0 <? length (isExploitable g)
   then ("### Is Exploitable" +:+ newline +:+ newline) +:+
        writeItems (isExploitable g) +:+ newline
   else "") +:+
  (if 0 <? length (notExploitable g)
   then ("### Not Exploitable" +:+ newline +:+ newline) +:+
        writeItems (notExploitable g) +:+ newline
   else "") +:+
  (if 0 <? length (unknownExploitability g)
   then ("### Exploitability Unknown" +:+ newline +:+ newline) +:+
        writeItems (unknownExploitability g)
   else "").

(** ** [queryAndSendCNAME] *)

Section Resolver.

(** [exec.Command("dig", "+short", "CNAME", domain).Output()]: the bytes the
    command printed and its error, if any. *)
Variable dig : string -> string * option string.

(** The channel [results] is passed as the sequence of values it holds; the
    function returns it with what it has sent appended. *)
Definition queryAndSendCNAME (domain : string) (results : list cnameResult)
    : list cnameResult :=
  let '(cname, err) := dig domain in
  if bool_decide (err <> None) || (String.length cname =? 0) then
    results ++ [mkResult domain "" (Some "no CNAME record found or dig command failed")]
  else
    results ++ [mkResult domain (TrimSpace cname) None].

End Resolver.

(** ** [checkCNAMEs]: the goroutines and what they share *)

(** Where a worker goroutine [func(domain string) {...}(domain)] stands. *)
Inductive worker : Type :=
  | Querying (domain : string)  (* in [queryAndSendCNAME], result not yet sent *)
  | Releasing                   (* result sent; deferred [<-sem] not yet run *)
  | Finishing.                  (* slot released; deferred [wg.Done()] not yet run *)

(** Where the supervising goroutine stands in [checkCNAMEs]. *)
Inductive supervisor : Type :=
  | Scanning    (* in [for scanner.Scan()] *)
  | Waiting     (* at [wg.Wait()] *)
  | Closing     (* at [close(results)] *)
  | Writing     (* at [writeResults()] *)
  | Returned.   (* [checkCNAMEs] has returned: [run] and [main] return, the program ends *)

(** What the goroutines share.  The subdomains file is read without error, and
    the output file can be created. *)
Record pipeline : Type := mkPipeline {
  lines : list string;           (* lines the scanner has not delivered yet *)
  pc : supervisor;
  workers : list worker;         (* the live worker goroutines *)
  sem : nat;                     (* number of tokens held in [sem] *)
  wg : nat;                      (* counter of the WaitGroup *)
  results : list cnameResult;    (* buffer of the channel [results], oldest first *)
  closed : bool;                 (* [results] has been closed *)
  globals : buckets;             (* the package-level lists *)
  outputFile : option string     (* what has been written to the output file *)
}.

Definition maxConcurrency : nat := 20.

(** Capacity of [results], [make(chan cnameResult, 100)]. *)
Definition resultsCapacity : nat := 100.

Definition start (candidates : list string) : pipeline :=
  mkPipeline candidates Scanning [] 0 0 [] false noBuckets None.

Definition querying (w : worker) : bool :=
  match w with Querying _ => true | _ => false end.

(** A worker holds its slot of [sem] until its deferred [<-sem] has run. *)
Definition holdsSlot (w : worker) : bool :=
  match w with Querying _ | Releasing => true | Finishing => false end.

(** Number of workers that have entered [queryAndSendCNAME] and not yet sent:
    the workers whose resolution call may be executing. *)
Definition inFlight (s : pipeline) : nat :=
  length (List.filter querying (workers s)).

Section Pipeline.

Variable extractServiceName : string -> string.
Variable isServiceVulnerable :
  string -> list (string * fingerprint) -> bool * bool * string * string * bool.
Variable dig : string -> string * option string.

(** The store [loadFingerprints] returned. *)
Variable store : fingerprints.

(** One atomic action of one goroutine. *)
Inductive step : pipeline -> pipeline -> Prop :=
  (* supervisor, one turn of the loop: [wg.Add(1)], [sem <- struct{}{}], which
     needs a free slot, and [go func(domain string) {...}(domain)] *)
  | step_spawn domain rest ws n w rs c g out :
      n < maxConcurrency ->
      step (mkPipeline (domain :: rest) Scanning ws n w rs c g out)
           (mkPipeline rest Scanning (ws ++ [Querying domain]) (S n) (S w) rs c g out)
  (* supervisor: [scanner.Scan()] returns false, [scanner.Err()] is nil *)
  | step_scanned ws n w rs c g out :
      step (mkPipeline [] Scanning ws n w rs c g out)
           (mkPipeline [] Waiting ws n w rs c g out)
  (* supervisor: [wg.Wait()] returns once the counter is zero *)
  | step_waited ls ws n rs c g out :
      step (mkPipeline ls Waiting ws n 0 rs c g out)
           (mkPipeline ls Closing ws n 0 rs c g out)
  (* supervisor: [close(results)] *)
  | step_close ls ws n w rs c g out :
      step (mkPipeline ls Closing ws n w rs c g out)
           (mkPipeline ls Writing ws n w rs true g out)
  (* supervisor: [writeResults()] reads the package-level lists as they are,
     then [checkCNAMEs] returns *)
  | step_write ls ws n w rs c g out :
      step (mkPipeline ls Writing ws n w rs c g out)
           (mkPipeline ls Returned ws n w rs c g (Some (writeResults g)))
  (* worker: [queryAndSendCNAME(domain, results)]; the send needs room in the
     buffer *)
  | step_query ls p ws1 domain ws2 n w rs c g out :
      p <> Returned ->
      length rs < resultsCapacity ->
      step (mkPipeline ls p (ws1 ++ Querying domain :: ws2) n w rs c g out)
           (mkPipeline ls p (ws1 ++ Releasing :: ws2) n w
                       (queryAndSendCNAME dig domain rs) c g out)
  (* worker: deferred [<-sem] *)
  | step_release ls p ws1 ws2 n w rs c g out :
      p <> Returned ->
      step (mkPipeline ls p (ws1 ++ Releasing :: ws2) n w rs c g out)
           (mkPipeline ls p (ws1 ++ Finishing :: ws2) (pred n) w rs c g out)
  (* worker: deferred [wg.Done()], the goroutine ends *)
  | step_done ls p ws1 ws2 n w rs c g out :
      p <> Returned ->
      step (mkPipeline ls p (ws1 ++ Finishing :: ws2) n w rs c g out)
           (mkPipeline ls p (ws1 ++ ws2) n (pred w) rs c g out)
  (* consumer: one turn of [for result := range results], receiving the oldest
     result and running [processCNAMEResult] on it *)
  | step_consume ls p ws n w result rs c g out dorder sorder g' :
      p <> Returned ->
      rangeOf store dorder ->
      rangeOf store sorder ->
      processCNAMEResult extractServiceName isServiceVulnerable
        result dorder sorder g = Ret g' ->
      step (mkPipeline ls p ws n w (result :: rs) c g out)
           (mkPipeline ls p ws n w rs c g' out).

(** The states a run on [candidates] passes through. *)
Definition reachable (candidates : list string) (s : pipeline) : Prop :=
  rtc step (start candidates) s.

End Pipeline.

(** ** Vocabulary of the statements *)

Definition asString (v : value) : option string :=
  match v with VString s => Some s | _ => None end.

Fixpoint allStrings (l : list value) : option (list string) :=
  match l with
  | [] => Some []
  | v :: rest =>
      match asString v, allStrings rest with
      | Some s, Some ss => Some (s :: ss)
      | _, _ => None
      end
  end.

(** The suffix patterns of an entry whose "cname" is an array of strings. *)
Definition patterns (fp : fingerprint) : option (list string) :=
  match fp !! "cname" with
  | Some (VArray cnameList) => allStrings cnameList
  | _ => None
  end.

(** The flag of an entry whose "vulnerable" is a boolean. *)
Definition verdict (fp : fingerprint) : option bool :=
  match fp !! "vulnerable" with
  | Some (VBool b) => Some b
  | _ => None
  end.

(** The shape the fingerprint source promises: [{cname: array of string,
    vulnerable: bool}]. *)
Definition wellShaped (fp : fingerprint) : Prop :=
  is_Some (patterns fp) /\ is_Some (verdict fp).

(** No pattern of the entry is a suffix of [name]. *)
Definition unmatched (name : string) (fp : fingerprint) : Prop :=
  exists ps, patterns fp = Some ps /\ existsb (HasSuffix name) ps = false.

(** Some pattern of the entry is a suffix of [name], and its flag is [b]. *)
Definition matched (name : string) (fp : fingerprint) (b : bool) : Prop :=
  exists ps, patterns fp = Some ps /\ existsb (HasSuffix name) ps = true /\
             verdict fp = Some b.

(** Number of lines in the four buckets of the report. *)
Definition entries (g : buckets) : nat :=
  length (isExploitable g) + length (notExploitable g) +
  length (unknownExploitability g) + length (notFound g).

(** One section of the report: a title, a blank line, one bulleted line per
    item, and [gap] after the last item. *)
Definition section (title : string) (items : list string) (gap : string) : string :=
  match items with
  | [] => ""
  | _ :: _ =>
      title +:+ newline +:+ newline +:+
      foldr (fun item rest => "- " +:+ item +:+ newline +:+ rest) gap items
  end.

(** The stores of the examples. *)
Definition entry (pattern : string) (vulnerable : value) : fingerprint :=
  {[ "cname" := VArray [VString pattern]; "vulnerable" := vulnerable ]}.

Definition shopifyStore : fingerprints :=
  {[ "Shopify" := entry "myshopify.com" (VBool true) ]}.

Definition twoEntriesLoaded : list (string * fingerprint) :=
  [("first", entry "a.example" (VBool false));
   ("second", entry "a.example" (VBool true))].

Definition twoEntries : fingerprints := list_to_map twoEntriesLoaded.

(** A service helper that never matches, and the identity as label extractor,
    to run the classifier on examples. *)
Definition noService (sld : string) (order : list (string * fingerprint))
    : bool * bool * string * string * bool :=
  (false, false, "", "", false).

Definition wholeName (cname : string) : string := cname.

(** A service helper that always reports the service "hosting" as safe. *)
Definition hostingService (sld : string) (order : list (string * fingerprint))
    : bool * bool * string * string * bool :=
  (true, false, "hosting", "", false).

(** A resolver for the end-to-end example: a CNAME for "a.test", a failure
    for every other name. *)
Definition digExample (domain : string) : string * option string :=
  if String.eqb domain "a.test"
  then ("shop.myshopify.com.", None)
  else ("", Some "exit status 9").

(** The lists the end-to-end example ends with, and their report. *)
Definition exampleBuckets : buckets :=
  mkBuckets []
    ["No CNAME record found for: b.test"]
    ["CNAME for a.test is: shop.myshopify.com. (found matching fingerprint - vulnerable)"]
    [] [].

Definition exampleReport : string :=
  "### Is Exploitable" +:+ newline +:+ newline +:+
  "- CNAME for a.test is: shop.myshopify.com. (found matching fingerprint - vulnerable)"
  +:+ newline +:+ newline.

(** The state such a run ends in when every result has been classified before
    the report is written. *)
Definition exampleEnd : pipeline :=
  mkPipeline [] Returned [] 0 0 [] true exampleBuckets (Some exampleReport).

(** The example after both workers have been started, and the end of a run
    without candidates. *)
Definition twoInFlight : pipeline :=
  mkPipeline [] Scanning [Querying "a.test"; Querying "b.test"] 2 2 []
             false noBuckets None.

Definition emptyEnd : pipeline :=
  mkPipeline [] Returned [] 0 0 [] true noBuckets (Some "").

Section History.

Variable extractServiceName : string -> string.
Variable isServiceVulnerable :
  string -> list (string * fingerprint) -> bool * bool * string * string * bool.
Variable dig : string -> string * option string.
Variable store : fingerprints.

(** The results a worker started on [domain] sends. *)
Definition sends (domain : string) : list cnameResult :=
  queryAndSendCNAME dig domain [].

(** The results a live worker has still to send. *)
Definition owed (w : worker) : list cnameResult :=
  match w with Querying domain => sends domain | _ => [] end.

(** [classified g log g']: the consumer, starting with the lists [g], has
    received the results [log] in this order and is left with the lists [g']. *)
Inductive classified : buckets -> list cnameResult -> buckets -> Prop :=
  | classified_nil g : classified g [] g
  | classified_cons g result dorder sorder g' log g'' :
      rangeOf store dorder ->
      rangeOf store sorder ->
      processCNAMEResult extractServiceName isServiceVulnerable
        result dorder sorder g = Ret g' ->
      classified g' log g'' ->
      classified g (result :: log) g''.

(** Every result of every candidate is in exactly one place: still to be
    produced, in the channel, or classified. *)
Definition accounted (candidates : list string) (s : pipeline) : Prop :=
  exists log,
    classified noBuckets log (globals s) /\
    candidates ≫= sends ≡ₚ
      (lines s ≫= sends) ++ (workers s ≫= owed) ++ results s ++ log.

(** The slots of [sem] are those of the workers that have not released yet, the
    WaitGroup counts the live workers, and it stays at zero once [wg.Wait()]
    has returned. *)
Definition slotsHeld (s : pipeline) : Prop :=
  sem s = length (List.filter holdsSlot (workers s)) /\
  sem s <= maxConcurrency /\
  wg s = length (workers s) /\
  (pc s <> Scanning -> lines s = []) /\
  (pc s <> Scanning -> pc s <> Waiting -> workers s = []).

End History.

(** ** The rest of [main.go] *)

(** [processResults]: the loop [for result := range results], over the values
    received until the channel is closed, against the package-level lists [g].
    The calls to the logger are left out. *)
Fixpoint processResults (results : list cnameResult) (g : buckets) : buckets :=
  match results with
  | [] => g
  | result :: rest =>
      if bool_decide (err result <> None) || String.eqb (cname result) "" then
        let notFoundMsg := "No CNAME record found for: " +:+ domain result in
        processResults rest
          (mkBuckets (found g) (notFound g ++ [notFoundMsg]) (isExploitable g)
                     (notExploitable g) (unknownExploitability g))
      else
        let foundMsg :=
          "CNAME for " +:+ domain result +:+ " is: " +:+ cname result in
        processResults rest
          (mkBuckets (found g ++ [foundMsg]) (notFound g) (isExploitable g)
                     (notExploitable g) (unknownExploitability g))
  end.

(** [strings.Contains(s, substr)], that is [Index(s, substr) >= 0]: [substr]
    starts at some position of [s]. *)
Fixpoint Contains (s substr : string) : bool :=
  String.prefix substr s ||
  match s with
  | EmptyString => false
  | String _ rest => Contains rest substr
  end.

(** What [net.LookupCNAME] returns: a name, a [*net.DNSError] with its
    [IsNotFound] field, or another error. *)
Inductive lookupResult : Type :=
  | LookupOk (cname : string)
  | LookupDNSError (isNotFound : bool)
  | LookupError.

(** What [http.Get] followed by [ioutil.ReadAll(resp.Body)] gives: a failed
    request, an unreadable body, or the body. *)
Inductive getResult : Type :=
  | GetError
  | ReadError
  | Body (body : string).

Section Takeover.

Variable LookupCNAME : string -> lookupResult.
Variable Get : string -> getResult.

Definition checkTakeoverDNS (domain fingerprintText : string) : bool :=
  let cname := "_cname." +:+ domain in
  match LookupCNAME cname with
  | LookupOk _ => false
  | LookupDNSError isNotFound => if isNotFound then true else false
  | LookupError => false
  end.

Definition checkTakeoverHTTP (domain fingerprintText : string) : bool :=
  let url := "http://" +:+ domain in
  match Get url with
  | GetError => false
  | ReadError => false
  | Body body => Contains body fingerprintText
  end.

Definition checkTakeover (domain fingerprintText : string)
    (hasNXDOMAINFlag : bool) : bool :=
  if hasNXDOMAINFlag
  then checkTakeoverDNS domain fingerprintText
  else checkTakeoverHTTP domain fingerprintText.

End Takeover.

(** ** More vocabulary *)

(** The test both classifiers make first. *)
Definition failed (result : cnameResult) : bool :=
  bool_decide (err result <> None) || String.eqb (cname result) "".

Definition notFoundLine (result : cnameResult) : string :=
  "No CNAME record found for: " +:+ domain result.

Definition foundLine (result : cnameResult) : string :=
  "CNAME for " +:+ domain result +:+ " is: " +:+ cname result.

(** Every byte is one of the six ASCII white-space characters. *)
Definition asciiSpaces (s : string) : bool :=
  forallb (fun b => bool_decide (b ∈ [9; 10; 11; 12; 13; 32]%N)) (bytes s).

(** What a resolver answer makes [queryAndSendCNAME] report as a failure. *)
Definition unresolved (answer : string * option string) : bool :=
  bool_decide (answer.2 <> None) || (String.length answer.1 =? 0).

(** An upper bound on the number of actions a state still allows: each line
    costs a spawn, a send, a release, a [Done] and a receive. *)
Definition workerWeight (w : worker) : nat :=
  match w with Querying _ => 4 | Releasing => 2 | Finishing => 1 end.

Definition supervisorWeight (p : supervisor) : nat :=
  match p with
  | Scanning => 4 | Waiting => 3 | Closing => 2 | Writing => 1 | Returned => 0
  end.

Definition actionsLeft (s : pipeline) : nat :=
  6 * length (lines s) + sum_list (workerWeight <$> workers s) +
  length (results s) + supervisorWeight (pc s).

(** Resolvers for the examples of the takeover checks. *)
Definition lookupExample (name : string) : lookupResult :=
  if String.eqb name "_cname.gone.test" then LookupDNSError true
  else LookupOk "target.test.".

Definition getExample (url : string) : getResult :=
  if String.eqb url "http://parked.test"
  then Body "<h1>There isn't a GitHub Pages site here.</h1>"
  else GetError.

(** A store of two entries that share their pattern and their flag, as
    loaded. *)
Definition sameFlagLoaded : list (string * fingerprint) :=
  [("first", entry "a.example" (VBool true));
   ("second", entry "a.example" (VBool true))].

Definition sameFlag : fingerprints := list_to_map sameFlagLoaded.



Section Failure.

Variable extractServiceName : string -> string.
Variable isServiceVulnerable :
  string -> list (string * fingerprint) -> bool * bool * string * string * bool.
Variable dig : string -> string * option string.
Variable store : fingerprints.


End Failure.

(** * Facts *)

(** ** Strings *)

Section StringLemmas.

Lemma length_append (a b : string) :
  String.length (a +:+ b) = String.length a + String.length b.
Proof. induction a as [|c a IH]; simpl; [done | by rewrite IH]. Qed.

Lemma append_assoc (a b c : string) : a +:+ b +:+ c = (a +:+ b) +:+ c.
Proof.
  induction a as [|x a IH]; [done|].
  change (String x (a +:+ b +:+ c) = String x ((a +:+ b) +:+ c)). by rewrite IH.
Qed.

Lemma append_nil_r (a : string) : a +:+ "" = a.
Proof.
  induction a as [|x a IH]; [done|].
  change (String x (a +:+ "") = String x a). by rewrite IH.
Qed.

Lemma substring_whole (s : string) : String.substring 0 (String.length s) s = s.
Proof. induction s as [|c s IH]; simpl; [done | by rewrite IH]. Qed.

Lemma substring_append_l (p q : string) :
  String.substring 0 (String.length p) (p +:+ q) = p.
Proof.
  induction p as [|c p IH]; simpl.
  - by destruct q.
  - by rewrite IH.
Qed.

Lemma substring_append_r (p q : string) :
  String.substring (String.length p) (String.length q) (p +:+ q) = q.
Proof. induction p as [|c p IH]; simpl; [apply substring_whole | done]. Qed.

Lemma substring_split (s : string) (n : nat) :
  n <= String.length s ->
  s = String.substring 0 n s +:+ String.substring n (String.length s - n) s.
Proof.
  revert n. induction s as [|c s IH]; intros [|n] Hn; simpl in *; try lia.
  - done.
  - by rewrite substring_whole.
  - change (String c s = String c (String.substring 0 n s +:+
                              String.substring n (String.length s - n) s)).
    f_equal. apply IH. lia.
Qed.

(** [HasSuffix] is exact suffix containment. *)
Lemma HasSuffix_spec (s suffix : string) :
  HasSuffix s suffix = true <-> exists p, s = p +:+ suffix.
Proof.
  unfold HasSuffix. rewrite andb_true_iff, Nat.leb_le, String.eqb_eq. split.
  - intros [Hle Hsub]. exists (String.substring 0 (String.length s - String.length suffix) s).
    pose proof (substring_split s (String.length s - String.length suffix)) as Hs.
    replace (String.length s - (String.length s - String.length suffix))
      with (String.length suffix) in Hs by lia.
    rewrite Hsub in Hs. apply Hs. lia.
  - intros [p ->]. rewrite length_append. split; [lia |].
    replace (String.length p + String.length suffix - String.length suffix)
      with (String.length p) by lia.
    apply substring_append_r.
Qed.

Lemma TrimSuffix_append (s suffix : string) : TrimSuffix (s +:+ suffix) suffix = s.
Proof.
  unfold TrimSuffix.
  assert (HasSuffix (s +:+ suffix) suffix = true) as -> by (apply HasSuffix_spec; eauto).
  rewrite length_append.
  replace (String.length s + String.length suffix - String.length suffix)
    with (String.length s) by lia.
  apply substring_append_l.
Qed.

Lemma TrimSuffix_other (s suffix : string) :
  HasSuffix s suffix = false -> TrimSuffix s suffix = s.
Proof. unfold TrimSuffix. by intros ->. Qed.

End StringLemmas.

(** ** The two loops of [isVulnerableCNAME] *)

Lemma allStrings_Some (l : list value) (ps : list string) :
  allStrings l = Some ps -> l = VString <$> ps.
Proof.
  revert ps. induction l as [|v l IH]; intros ps H; simpl in H.
  - by injection H as <-.
  - destruct v; simpl in H; try discriminate.
    destruct (allStrings l) as [qs|] eqn:Hl; [|discriminate].
    injection H as <-. simpl. f_equal. by apply IH.
Qed.

Lemma allStrings_strings (ps : list string) :
  allStrings (VString <$> ps) = Some ps.
Proof.
  induction ps as [|p ps IH]; [done|].
  change (allStrings (VString p :: (VString <$> ps)) = Some (p :: ps)).
  simpl. by rewrite IH.
Qed.

Lemma patterns_Some (fp : fingerprint) (ps : list string) :
  patterns fp = Some ps <-> fp !! "cname" = Some (VArray (VString <$> ps)).
Proof.
  unfold patterns. split.
  - destruct (fp !! "cname") as [[]|]; try discriminate.
    intros H. by rewrite (allStrings_Some _ _ H).
  - intros ->. apply allStrings_strings.
Qed.

(** The inner loop over a run of string patterns followed by [rest]. *)
Lemma rangeCnameList_strings name vulnerable (ps : list string) (rest : list value) :
  rangeCnameList name vulnerable ((VString <$> ps) ++ rest) =
  if existsb (HasSuffix name) ps
  then match vulnerable with Some (VBool b) => Ret (Some b) | _ => Panic end
  else rangeCnameList name vulnerable rest.
Proof.
  induction ps as [|p ps IH]; simpl; [done|].
  destruct (HasSuffix name p); simpl; [done | apply IH].
Qed.

Lemma rangeFingerprints_unmatched name k fp rest :
  unmatched name fp ->
  rangeFingerprints name ((k, fp) :: rest) = rangeFingerprints name rest.
Proof.
  intros (ps & Hps & Hno). apply patterns_Some in Hps. simpl. rewrite Hps.
  rewrite <- (app_nil_r (VString <$> ps)), rangeCnameList_strings, Hno. done.
Qed.

Lemma rangeFingerprints_matched name k fp rest b :
  matched name fp b ->
  rangeFingerprints name ((k, fp) :: rest) = Ret (true, b).
Proof.
  intros (ps & Hps & Hyes & Hv). apply patterns_Some in Hps. simpl. rewrite Hps.
  rewrite <- (app_nil_r (VString <$> ps)), rangeCnameList_strings, Hyes.
  unfold verdict in Hv. destruct (fp !! "vulnerable") as [[]|]; try discriminate.
  congruence.
Qed.

Lemma rangeFingerprints_skip name pre post :
  Forall (fun e => unmatched name e.2) pre ->
  rangeFingerprints name (pre ++ post) = rangeFingerprints name post.
Proof.
  induction 1 as [|[k fp] pre Hfp _ IH]; [done|].
  simpl app. by rewrite rangeFingerprints_unmatched.
Qed.

(** A well-shaped entry is matched or unmatched. *)
Lemma wellShaped_cases name fp :
  wellShaped fp -> unmatched name fp \/ exists b, matched name fp b.
Proof.
  intros [[ps Hps] [b Hb]].
  destruct (existsb (HasSuffix name) ps) eqn:E.
  - right. exists b, ps. done.
  - left. exists ps. done.
Qed.

(** On well-shaped entries the traversal returns, with the flag of the first
    matched entry it meets. *)
Lemma rangeFingerprints_wellShaped name order :
  Forall (fun e => wellShaped e.2) order ->
  (Forall (fun e => unmatched name e.2) order /\
   rangeFingerprints name order = Ret (false, false)) \/
  (exists pre k fp post b,
     order = pre ++ (k, fp) :: post /\
     Forall (fun e => unmatched name e.2) pre /\ matched name fp b /\
     rangeFingerprints name order = Ret (true, b)).
Proof.
  induction 1 as [|[k fp] order Hfp _ IH].
  - left. split; [constructor | done].
  - destruct (wellShaped_cases name fp Hfp) as [Hun | [b Hm]].
    + rewrite rangeFingerprints_unmatched by done.
      destruct IH as [[Hall Hr] | (pre & k' & fp' & post & b & -> & Hpre & Hm & Hr)].
      * left. split; [by constructor | done].
      * right. exists ((k, fp) :: pre), k', fp', post, b.
        split; [done|]. split; [by constructor|]. done.
    + right. exists [], k, fp, order, b.
      split; [done|]. split; [constructor|]. split; [done|].
      by apply rangeFingerprints_matched.
Qed.

Lemma unmatched_not_matched name fp b : unmatched name fp -> matched name fp b -> False.
Proof. intros (ps & Hps & Hno) (qs & Hqs & Hyes & _). congruence. Qed.

Lemma rangeOf_twoEntries_perm order :
  rangeOf twoEntries order <-> order ≡ₚ twoEntriesLoaded.
Proof.
  unfold rangeOf, twoEntries. rewrite map_to_list_to_map; [done|].
  apply (bool_decide_unpack _). by vm_compute.
Qed.

Lemma rangeOf_twoEntries_reverse : rangeOf twoEntries (reverse twoEntriesLoaded).
Proof. apply rangeOf_twoEntries_perm, Permutation_swap. Qed.

Lemma rangeOf_twoEntries order :
  rangeOf twoEntries order ->
  order = twoEntriesLoaded \/ order = reverse twoEntriesLoaded.
Proof.
  intros H%rangeOf_twoEntries_perm.
  symmetry in H. apply Permutation_length_2_inv in H. exact H.
Qed.

(** C1 (as amended): [isVulnerableCNAME] returns the verdict of the first entry,
    in the order in which the range over the map visits the entries, that has a
    pattern the dot-trimmed name ends with; which entry that is follows the
    traversal, not the order of loading.  For the store loaded as
    [{a.example, false}] then [{a.example, true}], a name ending in "a.example"
    is always matched, and is not vulnerable exactly when the traversal visits
    the entry loaded first before the other. *)
Theorem isVulnerableCNAME_first_match_in_range_order :
  (forall cname pre k fp post b,
     Forall (fun e => unmatched (TrimSuffix cname ".") e.2) pre ->
     matched (TrimSuffix cname ".") fp b ->
     isVulnerableCNAME cname (pre ++ (k, fp) :: post) = Ret (true, b)) /\
  (forall order name,
     rangeOf twoEntries order ->
     HasSuffix (TrimSuffix name ".") "a.example" = true ->
     (order = twoEntriesLoaded /\
      isVulnerableCNAME name order = Ret (true, false)) \/
     (order = reverse twoEntriesLoaded /\
      isVulnerableCNAME name order = Ret (true, true))).
Proof.
  split.
  - intros cname pre k fp post b Hpre Hm. unfold isVulnerableCNAME.
    rewrite rangeFingerprints_skip by done.
    by apply rangeFingerprints_matched.
  - intros order name Hrange Hsuf.
    destruct (rangeOf_twoEntries order Hrange) as [-> | ->]; [left | right];
      (split; [done|]); unfold isVulnerableCNAME;
      apply rangeFingerprints_matched; exists ["a.example"];
      (split; [done|]); (split; [|done]); simpl; by rewrite Hsuf.
Qed.

Lemma isVulnerableCNAME_first_match_in_range_order_witness :
  isVulnerableCNAME "x.a.example."
    ([("other", entry "b.example" (VBool true))] ++
     ("first", entry "a.example" (VBool false)) ::
     [("second", entry "a.example" (VBool true))]) = Ret (true, false) /\
  ((reverse twoEntriesLoaded = twoEntriesLoaded /\
    isVulnerableCNAME "x.a.example" (reverse twoEntriesLoaded) = Ret (true, false)) \/
   (reverse twoEntriesLoaded = reverse twoEntriesLoaded /\
    isVulnerableCNAME "x.a.example" (reverse twoEntriesLoaded) = Ret (true, true))).
Proof.
  destruct isVulnerableCNAME_first_match_in_range_order as [Hfirst Htwo]. split.
  - apply Hfirst.
    + repeat constructor. exists ["b.example"]. split; reflexivity.
    + exists ["a.example"]. repeat split; reflexivity.
  - apply Htwo.
    + apply rangeOf_twoEntries_reverse.
    + reflexivity.
Defined.

(** The first sentence of C1 fails on the store of its own example: a range
    over the map may visit the entry loaded second first, and the name is
    then classified as vulnerable. *)
Lemma load_order_does_not_decide :
  ~ (forall order,
       rangeOf twoEntries order ->
       isVulnerableCNAME "x.a.example" order = Ret (true, false)).
Proof.
  intros H. specialize (H (reverse twoEntriesLoaded)).
  specialize (H rangeOf_twoEntries_reverse). vm_compute in H. discriminate.
Qed.

(** C4: [isVulnerableCNAME] removes exactly one trailing dot from the name
    and then tests exact suffix containment against each pattern, so
    "shop.myshopify.com." matches the pattern "myshopify.com"; when no pattern
    of any entry is a suffix of the trimmed name it returns [(false, false)],
    and it reports a match exactly when some entry has such a pattern. *)
Theorem isVulnerableCNAME_trims_one_dot_exact_suffix :
  (forall s, TrimSuffix (s +:+ ".") "." = s) /\
  (forall s, HasSuffix s "." = false -> TrimSuffix s "." = s) /\
  (forall s pattern, HasSuffix s pattern = true <-> exists p, s = p +:+ pattern) /\
  (forall pre k post v,
     Forall (fun e => unmatched "shop.myshopify.com" e.2) pre ->
     isVulnerableCNAME "shop.myshopify.com."
       (pre ++ (k, entry "myshopify.com" (VBool v)) :: post) = Ret (true, v)) /\
  (forall cname order,
     Forall (fun e => unmatched (TrimSuffix cname ".") e.2) order ->
     isVulnerableCNAME cname order = Ret (false, false)) /\
  (forall cname order,
     Forall (fun e => wellShaped e.2) order ->
     (exists v, isVulnerableCNAME cname order = Ret (true, v)) <->
     Exists (fun e => exists b, matched (TrimSuffix cname ".") e.2 b) order).
Proof.
  split; [intros s; apply TrimSuffix_append|].
  split; [intros s; apply TrimSuffix_other|].
  split; [apply HasSuffix_spec|].
  split; [|split].
  - intros pre k post v Hpre. unfold isVulnerableCNAME.
    change (TrimSuffix "shop.myshopify.com." ".") with "shop.myshopify.com".
    rewrite rangeFingerprints_skip by done.
    apply rangeFingerprints_matched. exists ["myshopify.com"]. done.
  - intros cname order Hall. unfold isVulnerableCNAME.
    rewrite <- (app_nil_r order). by rewrite rangeFingerprints_skip.
  - intros cname order Hall. unfold isVulnerableCNAME.
    destruct (rangeFingerprints_wellShaped (TrimSuffix cname ".") order Hall)
      as [[Hno ->] | (pre & k & fp & post & b & -> & _ & Hm & ->)].
    + split; [by intros [v [=]]|].
      intros ([k fp] & Hin & b & Hm)%Exists_exists.
      rewrite Forall_forall in Hno.
      destruct (unmatched_not_matched _ _ _ (Hno _ Hin) Hm).
    + split; [|by eauto]. intros _. apply Exists_exists.
      exists (k, fp). split; [set_solver | by exists b].
Qed.

Lemma isVulnerableCNAME_trims_one_dot_exact_suffix_witness :
  TrimSuffix ("a." +:+ ".") "." = "a." /\
  TrimSuffix "a.test" "." = "a.test" /\
  isVulnerableCNAME "shop.myshopify.com."
    ([("first", entry "a.example" (VBool false))] ++
     ("Shopify", entry "myshopify.com" (VBool true)) :: []) = Ret (true, true) /\
  isVulnerableCNAME "x.randomhost.net." (map_to_list shopifyStore) = Ret (false, false).
Proof.
  destruct isVulnerableCNAME_trims_one_dot_exact_suffix
    as (Hdot & Hnodot & Hsuffix & Hshop & Hnone & Hsome).
  split; [apply (Hdot "a.")|].
  split; [apply (Hnodot "a.test"); reflexivity|]. split.
  - apply Hshop. repeat constructor. exists ["a.example"]. split; reflexivity.
  - apply Hnone. vm_compute. repeat constructor.
    exists ["myshopify.com"]. split; reflexivity.
Defined.

(** The claim that a store with an ill-shaped entry always makes the matcher
    panic fails: a non-boolean "vulnerable" is only asserted after a pattern
    has matched. *)
Lemma ill_shaped_entry_need_not_panic :
  ~ (forall (m : fingerprints) order cname,
       rangeOf m order ->
       (exists k fp, m !! k = Some fp /\ ~ wellShaped fp) ->
       isVulnerableCNAME cname order = Panic).
Proof.
  intros H.
  specialize (H {[ "svc" := entry "a.example" (VString "yes") ]}
                [("svc", entry "a.example" (VString "yes"))] "x.other.net").
  assert (Ret (false, false) = @Panic (bool * bool)) as Habs; [|discriminate].
  apply H.
  - unfold rangeOf. by rewrite map_to_list_singleton.
  - exists "svc", (entry "a.example" (VString "yes")). split.
    + apply lookup_singleton_eq.
    + intros [_ [b Hb]]. vm_compute in Hb. discriminate.
Qed.

(** C10 (as amended): on entries whose "cname" is an array of strings and
    whose "vulnerable" is a boolean, [isVulnerableCNAME] returns; an ill-shaped
    entry makes it panic when the traversal reaches the ill-shaped field before
    a match returns: an absent or non-array "cname" as soon as the entry is
    visited, a non-string element when no earlier pattern of the entry
    matches, a non-boolean "vulnerable" when a pattern of the entry matches. *)
Theorem isVulnerableCNAME_total_when_wellShaped :
  (forall cname order,
     Forall (fun e => wellShaped e.2) order ->
     exists r, isVulnerableCNAME cname order = Ret r) /\
  (forall cname pre k (fp : fingerprint) post,
     Forall (fun e => unmatched (TrimSuffix cname ".") e.2) pre ->
     (forall cnameList, fp !! "cname" <> Some (VArray cnameList)) ->
     isVulnerableCNAME cname (pre ++ (k, fp) :: post) = Panic) /\
  (forall cname pre k (fp : fingerprint) post ps v rest,
     Forall (fun e => unmatched (TrimSuffix cname ".") e.2) pre ->
     fp !! "cname" = Some (VArray ((VString <$> ps) ++ v :: rest)) ->
     existsb (HasSuffix (TrimSuffix cname ".")) ps = false ->
     asString v = None ->
     isVulnerableCNAME cname (pre ++ (k, fp) :: post) = Panic) /\
  (forall cname pre k (fp : fingerprint) post ps rest,
     Forall (fun e => unmatched (TrimSuffix cname ".") e.2) pre ->
     fp !! "cname" = Some (VArray ((VString <$> ps) ++ rest)) ->
     existsb (HasSuffix (TrimSuffix cname ".")) ps = true ->
     verdict fp = None ->
     isVulnerableCNAME cname (pre ++ (k, fp) :: post) = Panic).
Proof.
  repeat split.
  - intros cname order Hall. unfold isVulnerableCNAME.
    destruct (rangeFingerprints_wellShaped (TrimSuffix cname ".") order Hall)
      as [[_ ->] | (pre & k & fp & post & b & _ & _ & _ & ->)]; eauto.
  - intros cname pre k fp post Hpre Hfp. unfold isVulnerableCNAME.
    rewrite rangeFingerprints_skip by done. simpl.
    destruct (fp !! "cname") as [[]|]; try done. by destruct (Hfp elems).
  - intros cname pre k fp post ps v rest Hpre Hfp Hno Hv. unfold isVulnerableCNAME.
    rewrite rangeFingerprints_skip by done. simpl.
    rewrite Hfp, rangeCnameList_strings, Hno. by destruct v.
  - intros cname pre k fp post ps rest Hpre Hfp Hyes Hv. unfold isVulnerableCNAME.
    rewrite rangeFingerprints_skip by done. simpl.
    rewrite Hfp, rangeCnameList_strings, Hyes.
    unfold verdict in Hv. by destruct (fp !! "vulnerable") as [[]|].
Qed.

Lemma isVulnerableCNAME_total_when_wellShaped_witness :
  (exists r, isVulnerableCNAME "x.a.example." twoEntriesLoaded = Ret r) /\
  isVulnerableCNAME "x.a.example"
    ([] ++ ("svc", {[ "vulnerable" := VBool true ]}) :: []) = Panic /\
  isVulnerableCNAME "x.a.example"
    ([] ++ ("svc", {[ "cname" := VArray ((VString <$> ["b.example"]) ++
                                          VNumber "7" :: [VString "a.example"]);
                       "vulnerable" := VBool true ]}) :: []) = Panic /\
  isVulnerableCNAME "x.a.example"
    ([] ++ ("svc", {[ "cname" := VArray ((VString <$> ["a.example"]) ++ []);
                       "vulnerable" := VString "yes" ]}) :: []) = Panic.
Proof.
  destruct isVulnerableCNAME_total_when_wellShaped as (Htotal & Hcname & Helem & Hvuln).
  split; [|split; [|split]].
  - apply Htotal. repeat constructor; by eexists.
  - apply Hcname; [constructor|]. intros l H. vm_compute in H. discriminate.
  - apply (Helem "x.a.example" [] "svc" _ [] ["b.example"] (VNumber "7")
                 [VString "a.example"]);
      [constructor | reflexivity | reflexivity | reflexivity].
  - apply (Hvuln "x.a.example" [] "svc" _ [] ["a.example"] []);
      [constructor | reflexivity | reflexivity | reflexivity].
Defined.

(** ** The classifier *)

Lemma rangeOf_lookup (m : fingerprints) order k fp :
  rangeOf m order -> (k, fp) ∈ order -> m !! k = Some fp.
Proof. unfold rangeOf. intros -> H. by apply elem_of_map_to_list. Qed.

Lemma rangeOf_wellShaped (m : fingerprints) order :
  rangeOf m order ->
  map_Forall (fun _ fp => wellShaped fp) m ->
  Forall (fun e => wellShaped e.2) order.
Proof.
  intros Hr Hm. apply Forall_forall. intros [k fp] Hin.
  apply (Hm k). by eapply rangeOf_lookup.
Qed.

(** Two traversals of a well-shaped store agree when the entries that match
    the name carry the same flag. *)
Lemma rangeFingerprints_order_insensitive (m : fingerprints) name order1 order2 :
  rangeOf m order1 -> rangeOf m order2 ->
  map_Forall (fun _ fp => wellShaped fp) m ->
  (forall k1 fp1 b1 k2 fp2 b2,
     m !! k1 = Some fp1 -> m !! k2 = Some fp2 ->
     matched name fp1 b1 -> matched name fp2 b2 -> b1 = b2) ->
  rangeFingerprints name order1 = rangeFingerprints name order2.
Proof.
  intros Hr1 Hr2 Hm Hagree.
  assert (order1 ≡ₚ order2) as Hperm by (unfold rangeOf in *; by rewrite Hr1, Hr2).
  destruct (rangeFingerprints_wellShaped name order1 (rangeOf_wellShaped _ _ Hr1 Hm))
    as [[Hno1 ->] | (pre1 & k1 & fp1 & post1 & b1 & Ho1 & _ & Hm1 & ->)];
  destruct (rangeFingerprints_wellShaped name order2 (rangeOf_wellShaped _ _ Hr2 Hm))
    as [[Hno2 ->] | (pre2 & k2 & fp2 & post2 & b2 & Ho2 & _ & Hm2 & ->)].
  - done.
  - exfalso. rewrite Forall_forall in Hno1.
    apply (unmatched_not_matched name fp2 b2); [|done].
    apply (Hno1 (k2, fp2)). rewrite Hperm, Ho2. set_solver.
  - exfalso. rewrite Forall_forall in Hno2.
    apply (unmatched_not_matched name fp1 b1); [|done].
    apply (Hno2 (k1, fp1)). rewrite <- Hperm, Ho1. set_solver.
  - do 2 f_equal. apply (Hagree k1 fp1 b1 k2 fp2 b2); [| |done|done].
    + apply (rangeOf_lookup m order1); [done|]. rewrite Ho1. set_solver.
    + apply (rangeOf_lookup m order2); [done|]. rewrite Ho2. set_solver.
Qed.

Section ClassifierFacts.

Variable extractServiceName : string -> string.
Variable isServiceVulnerable :
  string -> list (string * fingerprint) -> bool * bool * string * string * bool.

Local Abbreviation process := (processCNAMEResult extractServiceName isServiceVulnerable).

(** A call that returns has appended exactly one line to one of the four
    buckets. *)
Lemma processCNAMEResult_one_entry result dorder sorder g g' :
  process result dorder sorder g = Ret g' -> entries g' = S (entries g).
Proof.
  unfold processCNAMEResult, appendResultBasedOnVulnerability, entries.
  destruct (_ || _).
  - intros [= <-]. simpl. rewrite length_app. simpl. lia.
  - destruct (isVulnerableCNAME _ _) as [[[] v]|]; [| |discriminate].
    + destruct v; intros [= <-]; simpl; rewrite length_app; simpl; lia.
    + destruct (isServiceVulnerable _ _) as [[[[[] v'] ?] ?] ?].
      * destruct v'; intros [= <-]; simpl; rewrite length_app; simpl; lia.
      * intros [= <-]. simpl. rewrite length_app. simpl. lia.
Qed.

End ClassifierFacts.

(** C5: a result that carries a failure, or whose resolved name is empty, is
    classified as NoRecord: the one line "No CNAME record found for: <domain>"
    is appended to [notFound], whatever the store holds, and no other bucket
    changes, so neither is it classified as Unknown. *)
Theorem processCNAMEResult_failed_is_NoRecord :
  forall extractServiceName isServiceVulnerable result dorder sorder g,
    err result <> None \/ cname result = "" ->
    processCNAMEResult extractServiceName isServiceVulnerable result dorder sorder g =
    Ret (mkBuckets (found g)
           (notFound g ++ ["No CNAME record found for: " +:+ domain result])
           (isExploitable g) (notExploitable g) (unknownExploitability g)).
Proof.
  intros ext isv result dorder sorder g H. unfold processCNAMEResult.
  assert (bool_decide (err result <> None) || String.eqb (cname result) "" = true) as ->; [|done].
  apply orb_true_iff. destruct H as [H | H].
  - left. by apply bool_decide_eq_true.
  - right. by apply String.eqb_eq.
Qed.

Lemma processCNAMEResult_failed_is_NoRecord_witness :
  processCNAMEResult wholeName noService
    (mkResult "b.test" "" (Some "no CNAME record found or dig command failed"))
    [("svc", ∅)] [] noBuckets =
  Ret (mkBuckets [] ["No CNAME record found for: b.test"] [] [] []) /\
  processCNAMEResult wholeName noService (mkResult "c.test" "" None)
    (map_to_list twoEntries) (map_to_list twoEntries)
    (mkBuckets [] ["No CNAME record found for: b.test"] [] [] ["u"]) =
  Ret (mkBuckets [] ["No CNAME record found for: b.test";
                     "No CNAME record found for: c.test"] [] [] ["u"]).
Proof.
  split.
  - apply (processCNAMEResult_failed_is_NoRecord wholeName noService
             (mkResult "b.test" "" (Some "no CNAME record found or dig command failed"))).
    left. discriminate.
  - apply (processCNAMEResult_failed_is_NoRecord wholeName noService
             (mkResult "c.test" "" None)).
    right. reflexivity.
Defined.

(** The claim of C9 fails on the store of the first-match example: two
    classifications of one result against one store differ when their ranges
    visit the map in different orders. *)
Lemma classification_follows_range_order :
  ~ (forall order1 order2,
       rangeOf twoEntries order1 -> rangeOf twoEntries order2 ->
       processCNAMEResult wholeName noService
         (mkResult "a.test" "x.a.example." None) order1 order1 noBuckets =
       processCNAMEResult wholeName noService
         (mkResult "a.test" "x.a.example." None) order2 order2 noBuckets).
Proof.
  intros H.
  specialize (H twoEntriesLoaded (reverse twoEntriesLoaded)
                (proj2 (rangeOf_twoEntries_perm _) (reflexivity _))
                rangeOf_twoEntries_reverse).
  vm_compute in H. discriminate.
Qed.

(** C9 (as amended): two classifications of the same result against the same
    well-shaped store, from the same lists, yield identical lists when all
    entries with a pattern the trimmed name ends with carry the same
    "vulnerable" flag and the service helper answers alike on both traversals;
    the order in which a range visits the map is the only input besides the
    arguments. *)
Theorem processCNAMEResult_deterministic :
  forall extractServiceName isServiceVulnerable (m : fingerprints)
         result dorder1 sorder1 dorder2 sorder2 g,
    rangeOf m dorder1 -> rangeOf m dorder2 ->
    map_Forall (fun _ fp => wellShaped fp) m ->
    (forall k1 fp1 b1 k2 fp2 b2,
       m !! k1 = Some fp1 -> m !! k2 = Some fp2 ->
       matched (TrimSuffix (cname result) ".") fp1 b1 ->
       matched (TrimSuffix (cname result) ".") fp2 b2 -> b1 = b2) ->
    isServiceVulnerable (extractServiceName (cname result)) sorder1 =
    isServiceVulnerable (extractServiceName (cname result)) sorder2 ->
    processCNAMEResult extractServiceName isServiceVulnerable result dorder1 sorder1 g =
    processCNAMEResult extractServiceName isServiceVulnerable result dorder2 sorder2 g.
Proof.
  intros ext isv m result d1 s1 d2 s2 g Hr1 Hr2 Hm Hagree Hservice.
  unfold processCNAMEResult, isVulnerableCNAME.
  rewrite (rangeFingerprints_order_insensitive m _ d1 d2 Hr1 Hr2 Hm Hagree).
  by rewrite Hservice.
Qed.

Lemma rangeOf_sameFlag order :
  order ≡ₚ sameFlagLoaded -> rangeOf sameFlag order.
Proof.
  intros H. unfold rangeOf, sameFlag. rewrite map_to_list_to_map; [done|].
  apply (bool_decide_unpack _). by vm_compute.
Qed.

Lemma lookup_sameFlag k fp :
  sameFlag !! k = Some fp -> fp = entry "a.example" (VBool true).
Proof.
  unfold sameFlag, sameFlagLoaded. cbn [list_to_map foldr uncurry].
  intros [[_ <-] | [_ [[_ <-] | [_ H]]%lookup_insert_Some]]%lookup_insert_Some;
    [done | done | by rewrite lookup_empty in H].
Qed.

Lemma processCNAMEResult_deterministic_witness :
  processCNAMEResult wholeName noService (mkResult "a.test" "x.a.example." None)
    sameFlagLoaded sameFlagLoaded noBuckets =
  processCNAMEResult wholeName noService (mkResult "a.test" "x.a.example." None)
    (reverse sameFlagLoaded) (reverse sameFlagLoaded) noBuckets.
Proof.
  apply (processCNAMEResult_deterministic wholeName noService sameFlag).
  - by apply rangeOf_sameFlag.
  - apply rangeOf_sameFlag, Permutation_swap.
  - intros k fp ->%lookup_sameFlag. split; by eexists.
  - intros k1 fp1 b1 k2 fp2 b2 ->%lookup_sameFlag ->%lookup_sameFlag
           (_ & _ & _ & H1) (_ & _ & _ & H2).
    vm_compute in H1, H2. congruence.
  - reflexivity.
Defined.

(** ** The goroutines of [checkCNAMEs] *)

Lemma querying_holdsSlot (ws : list worker) :
  length (List.filter querying ws) <= length (List.filter holdsSlot ws).
Proof. induction ws as [|[] ws IH]; simpl; lia. Qed.

Section PipelineFacts.

Variable extractServiceName : string -> string.
Variable isServiceVulnerable :
  string -> list (string * fingerprint) -> bool * bool * string * string * bool.
Variable dig : string -> string * option string.
Variable store : fingerprints.

Local Abbreviation next := (step extractServiceName isServiceVulnerable dig store).
Local Abbreviation reached :=
  (reachable extractServiceName isServiceVulnerable dig store).

Lemma slotsHeld_start candidates : slotsHeld (start candidates).
Proof. unfold slotsHeld, maxConcurrency. simpl. repeat split; (lia || done). Qed.

Lemma slotsHeld_step s s' : slotsHeld s -> next s s' -> slotsHeld s'.
Proof.
  unfold slotsHeld. intros (Hsem & Hmax & Hwg & Hlines & Hws) Hstep.
  destruct Hstep; simpl in *;
    rewrite ?List.filter_app, ?length_app in *; simpl in *;
    repeat split; try (lia || done); intros;
    auto using nil_length_inv;
    exfalso; eapply app_cons_not_nil; symmetry; eauto.
Qed.

Lemma slotsHeld_reachable candidates s : reached candidates s -> slotsHeld s.
Proof.
  unfold reachable. revert s. apply (rtc_ind_r (fun s => slotsHeld s)).
  - apply slotsHeld_start.
  - intros y z _ Hstep Hy. by apply (slotsHeld_step y z).
Qed.

End PipelineFacts.

(** C6: in every state of every run at most [maxConcurrency = 20] workers are
    inside their resolution call: a worker is only started once a slot of
    [sem] has been taken for it, the slots taken are those of the workers that
    have not yet run their deferred release, and once [wg.Wait()] has returned
    every slot has been given back, whatever the calls returned. *)
Theorem at_most_maxConcurrency_in_flight :
  forall extractServiceName isServiceVulnerable dig store candidates s,
    reachable extractServiceName isServiceVulnerable dig store candidates s ->
    maxConcurrency = 20 /\
    inFlight s <= maxConcurrency /\
    sem s = length (List.filter holdsSlot (workers s)) /\
    (pc s <> Scanning -> pc s <> Waiting -> sem s = 0).
Proof.
  intros ext isv dig store candidates s Hs.
  destruct (slotsHeld_reachable ext isv dig store candidates s Hs)
    as (Hsem & Hmax & Hwg & Hlines & Hws).
  split; [done|]. split.
  - unfold inFlight. pose proof (querying_holdsSlot (workers s)). lia.
  - split; [done|]. intros H1 H2. by rewrite Hsem, (Hws H1 H2).
Qed.

(** ** Where the results of a run are *)

Lemma queryAndSendCNAME_sends dig domain rs :
  queryAndSendCNAME dig domain rs = rs ++ sends dig domain.
Proof.
  unfold sends, queryAndSendCNAME. destruct (dig domain) as [c e].
  by destruct (_ || _).
Qed.

(** [queryAndSendCNAME] sends exactly one result, and it is about its domain. *)
Lemma sends_one dig d : exists result, sends dig d = [result] /\ domain result = d.
Proof.
  unfold sends, queryAndSendCNAME. destruct (dig d) as [c e].
  destruct (_ || _); eexists; split; reflexivity.
Qed.

Section Accounting.

Variable extractServiceName : string -> string.
Variable isServiceVulnerable :
  string -> list (string * fingerprint) -> bool * bool * string * string * bool.
Variable dig : string -> string * option string.
Variable store : fingerprints.

Local Abbreviation next := (step extractServiceName isServiceVulnerable dig store).
Local Abbreviation reached :=
  (reachable extractServiceName isServiceVulnerable dig store).
Local Abbreviation consumed :=
  (classified extractServiceName isServiceVulnerable store).
Local Abbreviation account :=
  (accounted extractServiceName isServiceVulnerable dig store).

Lemma classified_snoc g log g' result dorder sorder g'' :
  consumed g log g' ->
  rangeOf store dorder -> rangeOf store sorder ->
  processCNAMEResult extractServiceName isServiceVulnerable
    result dorder sorder g' = Ret g'' ->
  consumed g (log ++ [result]) g''.
Proof.
  intros Hlog Hd Hs Hp. induction Hlog as [g | g r d s g1 log g2 Hd' Hs' Hp' _ IH].
  - eapply classified_cons; [exact Hd | exact Hs | exact Hp | constructor].
  - eapply classified_cons; [exact Hd' | exact Hs' | exact Hp' | by apply IH].
Qed.

(** One line per classified result. *)
Lemma classified_entries g log g' :
  consumed g log g' -> entries g' = entries g + length log.
Proof.
  induction 1 as [g | g r d s g1 log g2 _ _ Hp _ IH]; simpl; [lia|].
  apply processCNAMEResult_one_entry in Hp. lia.
Qed.

Lemma accounted_start candidates : account candidates (start candidates).
Proof.
  exists []. split; [constructor|]. simpl. by rewrite !app_nil_r.
Qed.

Lemma accounted_step candidates s s' :
  account candidates s -> next s s' -> account candidates s'.
Proof.
  intros (log & Hlog & Hperm) Hstep. unfold accounted.
  destruct Hstep; cbn [lines workers results globals] in *;
    try (by exists log).
  - exists log. split; [done|].
    rewrite Hperm, bind_cons, bind_app, bind_singleton.
    cbn [owed]. solve_Permutation.
  - exists log. split; [done|].
    rewrite Hperm, queryAndSendCNAME_sends, !bind_app, !bind_cons.
    cbn [owed]. solve_Permutation.
  - exists log. split; [done|]. by rewrite Hperm, !bind_app, !bind_cons.
  - exists log. split; [done|]. by rewrite Hperm, !bind_app, !bind_cons.
  - exists (log ++ [result]). split.
    + by apply (classified_snoc noBuckets log g result dorder sorder g').
    + rewrite Hperm. solve_Permutation.
Qed.

Lemma accounted_reachable candidates s : reached candidates s -> account candidates s.
Proof.
  unfold reachable. revert s. apply (rtc_ind_r (fun s => account candidates s)).
  - apply accounted_start.
  - intros y z _ Hstep Hy. by apply (accounted_step candidates y z).
Qed.

(** Once every line has been read, every worker has ended and the channel is
    empty, the consumer has classified the results of the candidates, each
    once, in some order, and the buckets hold one line per candidate. *)
Lemma drained_classified candidates s :
  reached candidates s ->
  lines s = [] -> workers s = [] -> results s = [] ->
  exists log,
    consumed noBuckets log (globals s) /\
    log ≡ₚ candidates ≫= sends dig /\
    entries (globals s) = length candidates.
Proof.
  intros Hs Hl Hw Hr.
  destruct (accounted_reachable candidates s Hs) as (log & Hlog & Hperm).
  rewrite Hl, Hw, Hr in Hperm. simpl in Hperm.
  exists log. split; [done|]. split; [done|].
  rewrite (classified_entries _ _ _ Hlog), <- Hperm. simpl.
  clear. induction candidates as [|d candidates IH]; [done|].
  rewrite bind_cons, length_app, IH.
  by destruct (sends_one dig d) as (r & -> & _).
Qed.

(** In every state the buckets hold at most one line per candidate. *)
Lemma entries_bounded candidates s :
  reached candidates s -> entries (globals s) <= length candidates.
Proof.
  intros Hs.
  destruct (accounted_reachable candidates s Hs) as (log & Hlog & Hperm).
  rewrite (classified_entries _ _ _ Hlog). simpl.
  assert (length (candidates ≫= sends dig) = length candidates) as <-.
  { clear. induction candidates as [|d candidates IH]; [done|].
    rewrite bind_cons, length_app, IH.
    by destruct (sends_one dig d) as (r & -> & _). }
  rewrite Hperm, !length_app. lia.
Qed.

(** The channel is closed by the supervisor only, after [wg.Wait()]. *)
Lemma closed_late candidates s :
  reached candidates s ->
  closed s = true -> pc s = Writing \/ pc s = Returned.
Proof.
  unfold reachable. revert s. apply (rtc_ind_r (fun s => closed s = true -> _)).
  - discriminate.
  - intros y z _ Hstep Hy. destruct Hstep; simpl in *; auto;
      intros Hc; destruct (Hy Hc); discriminate.
Qed.

(** When the channel is closed every candidate has had its one result handed
    to the channel: each is in the channel or already classified. *)
Lemma closed_after_every_send candidates s :
  reached candidates s ->
  closed s = true ->
  lines s = [] /\ workers s = [] /\
  exists log,
    consumed noBuckets log (globals s) /\
    results s ++ log ≡ₚ candidates ≫= sends dig.
Proof.
  intros Hs Hc.
  destruct (slotsHeld_reachable _ _ _ _ _ _ Hs) as (_ & _ & _ & Hl & Hw).
  destruct (closed_late _ _ Hs Hc) as [Hpc | Hpc];
    assert (lines s = []) as Hl' by (apply Hl; by rewrite Hpc);
    assert (workers s = []) as Hw' by (apply Hw; by rewrite Hpc);
    (split; [done|]); (split; [done|]);
    destruct (accounted_reachable candidates s Hs) as (log & Hlog & Hperm);
    exists log; (split; [done|]);
    rewrite Hl', Hw' in Hperm; simpl in Hperm; by rewrite Hperm.
Qed.

End Accounting.

(** ** Runs *)

Section Runs.

Variable extractServiceName : string -> string.
Variable isServiceVulnerable :
  string -> list (string * fingerprint) -> bool * bool * string * string * bool.
Variable dig : string -> string * option string.
Variable store : fingerprints.

Local Abbreviation next := (step extractServiceName isServiceVulnerable dig store).
Local Abbreviation reached :=
  (reachable extractServiceName isServiceVulnerable dig store).

(** A run on one candidate in which the consumer is not scheduled between the
    send of the worker and the return of [checkCNAMEs]. *)
Lemma run_without_consumer d :
  reached [d]
    (mkPipeline [] Returned [] 0 0 (sends dig d) true noBuckets (Some "")).
Proof.
  unfold reachable, start.
  eapply rtc_l. { apply step_spawn. unfold maxConcurrency. lia. }
  eapply rtc_l. { apply step_scanned. }
  eapply rtc_l.
  { apply (step_query _ _ _ _ [] Waiting [] d []);
      [done | unfold resultsCapacity; simpl; lia]. }
  eapply rtc_l. { by apply (step_release _ _ _ _ [] Waiting [] []). }
  eapply rtc_l. { by apply (step_done _ _ _ _ [] Waiting [] []). }
  eapply rtc_l. { apply step_waited. }
  eapply rtc_l. { apply step_close. }
  eapply rtc_l. { apply step_write. }
  apply rtc_refl.
Qed.

(** After [checkCNAMEs] has returned no goroutine takes a step. *)
Lemma returned_final ls ws n w rs c g out s' :
  ~ next (mkPipeline ls Returned ws n w rs c g out) s'.
Proof. intros H. inversion H; congruence. Qed.

(** Without candidates nothing is ever resolved, queued or classified. *)
Lemma run_of_nothing s :
  reached [] s ->
  lines s = [] /\ workers s = [] /\ results s = [] /\ globals s = noBuckets /\
  (outputFile s = None \/ outputFile s = Some "").
Proof.
  unfold reachable. revert s. apply (rtc_ind_r (fun s => _ /\ _ /\ _ /\ _ /\ _)).
  - simpl. repeat split; auto.
  - intros y z _ Hstep (Hl & Hw & Hr & Hg & Hout).
    destruct Hstep; simpl in *; try discriminate;
      try (by destruct (app_cons_not_nil _ _ _ (eq_sym Hw)));
      repeat split; auto.
    subst. right. reflexivity.
Qed.

End Runs.

Lemma rangeOf_shopifyStore order :
  rangeOf shopifyStore order <-> order = [("Shopify", entry "myshopify.com" (VBool true))].
Proof.
  unfold rangeOf, shopifyStore. rewrite map_to_list_singleton. split.
  - intros H. symmetry in H. by apply Permutation_singleton_l in H.
  - by intros ->.
Qed.

(** A run of the end-to-end example in which each result is classified before
    the supervisor goes on. *)
Lemma run_of_example :
  reachable wholeName noService digExample shopifyStore ["a.test"; "b.test"]
    exampleEnd.
Proof.
  pose proof (proj2 (rangeOf_shopifyStore _) eq_refl) as Hrange.
  unfold reachable, start.
  eapply rtc_l. { apply step_spawn. unfold maxConcurrency. lia. }
  eapply rtc_l.
  { apply (step_query _ _ _ _ ["b.test"] Scanning [] "a.test" []);
      [done | unfold resultsCapacity; simpl; lia]. }
  eapply rtc_l. { by apply (step_release _ _ _ _ ["b.test"] Scanning [] []). }
  eapply rtc_l. { by apply (step_done _ _ _ _ ["b.test"] Scanning [] []). }
  eapply rtc_l.
  { eapply (step_consume _ _ _ _ ["b.test"] Scanning [] 0 0
             (mkResult "a.test" "shop.myshopify.com." None) [] false noBuckets None
             _ _ _ ltac:(done) Hrange Hrange).
    reflexivity. }
  eapply rtc_l. { apply step_spawn. unfold maxConcurrency. lia. }
  eapply rtc_l.
  { apply (step_query _ _ _ _ [] Scanning [] "b.test" []);
      [done | unfold resultsCapacity; simpl; lia]. }
  eapply rtc_l. { by apply (step_release _ _ _ _ [] Scanning [] []). }
  eapply rtc_l. { by apply (step_done _ _ _ _ [] Scanning [] []). }
  eapply rtc_l.
  { eapply (step_consume _ _ _ _ [] Scanning [] 0 0
             (mkResult "b.test" "" (Some "no CNAME record found or dig command failed"))
             [] false _ None _ _ _ ltac:(done) Hrange Hrange).
    reflexivity. }
  eapply rtc_l. { apply step_scanned. }
  eapply rtc_l. { apply step_waited. }
  eapply rtc_l. { apply step_close. }
  eapply rtc_l. { apply step_write. }
  apply rtc_refl.
Qed.

(** C2, at the input where the code departs from it: on one candidate there is
    a run in which [close(results)] comes after the one result has been handed
    to the channel, and [writeResults] has written an empty report and
    [checkCNAMEs] has returned while that result is still in the channel,
    unclassified. *)
Theorem report_written_before_consumer_drains :
  forall extractServiceName isServiceVulnerable dig store d,
  exists s,
    reachable extractServiceName isServiceVulnerable dig store [d] s /\
    pc s = Returned /\ closed s = true /\
    outputFile s = Some "" /\
    (exists result, results s = [result] /\ domain result = d) /\
    globals s = noBuckets.
Proof.
  intros ext isv dig store d.
  exists (mkPipeline [] Returned [] 0 0 (sends dig d) true noBuckets (Some "")).
  split; [apply run_without_consumer|].
  repeat split. simpl. apply sends_one.
Qed.

(** C7, at the input where the code departs from it: on one candidate there is
    a run that produces its one result and ends, no goroutine being able to
    take a step, with no line in any bucket. *)
Theorem run_ends_with_unclassified_result :
  forall extractServiceName isServiceVulnerable dig store d,
  exists s,
    reachable extractServiceName isServiceVulnerable dig store [d] s /\
    (forall s', ~ step extractServiceName isServiceVulnerable dig store s s') /\
    length (results s) = length [d] /\
    entries (globals s) = 0.
Proof.
  intros ext isv dig store d.
  exists (mkPipeline [] Returned [] 0 0 (sends dig d) true noBuckets (Some "")).
  split; [apply run_without_consumer|].
  split; [intros s'; apply returned_final|].
  split; [|done]. simpl. by destruct (sends_one dig d) as (r & -> & _).
Qed.

Lemma run_two_in_flight :
  reachable wholeName noService digExample shopifyStore ["a.test"; "b.test"]
    twoInFlight.
Proof.
  unfold reachable, start.
  eapply rtc_l. { apply step_spawn. unfold maxConcurrency. lia. }
  eapply rtc_l. { apply step_spawn. unfold maxConcurrency. lia. }
  apply rtc_refl.
Qed.

Lemma at_most_maxConcurrency_in_flight_witness :
  maxConcurrency = 20 /\
  inFlight twoInFlight <= maxConcurrency /\
  sem twoInFlight = length (List.filter holdsSlot (workers twoInFlight)) /\
  (pc twoInFlight <> Scanning -> pc twoInFlight <> Waiting -> sem twoInFlight = 0).
Proof.
  exact (at_most_maxConcurrency_in_flight wholeName noService digExample
           shopifyStore ["a.test"; "b.test"] twoInFlight run_two_in_flight).
Defined.

Lemma writeItems_foldr items gap :
  writeItems items +:+ gap =
  foldr (fun item rest => "- " +:+ item +:+ newline +:+ rest) gap items.
Proof.
  induction items as [|item items IH]; [done|].
  simpl. rewrite <- IH. clear IH.
  generalize (writeItems items). intros tail.
  change ((("- " +:+ item +:+ newline) +:+ tail) +:+ gap =
          "- " +:+ item +:+ newline +:+ tail +:+ gap).
  by rewrite <- !append_assoc.
Qed.

(** The section of one bucket, as [writeResults] writes it. *)
Lemma writeResults_section title items gap :
  (if 0 <? length items
   then (title +:+ newline +:+ newline) +:+ writeItems items +:+ gap
   else "") = section title items gap.
Proof.
  destruct items as [|item items]; [done|].
  unfold section. change (0 <? length (item :: items)) with true. cbv iota.
  rewrite writeItems_foldr. by rewrite <- !append_assoc.
Qed.

(** C8: the report is made of one titled section per non-empty bucket, in the
    order Exploitable, NotExploitable, Unknown, each item on one bulleted line;
    [notFound] is collected but has no part in the report; and a run without
    candidates leaves every bucket empty and writes a report without
    sections. *)
Theorem writeResults_sections :
  (forall g,
     writeResults g =
     section "### Is Exploitable" (isExploitable g) newline +:+
     section "### Not Exploitable" (notExploitable g) newline +:+
     section "### Exploitability Unknown" (unknownExploitability g) "") /\
  (forall title gap, section title [] gap = "") /\
  (forall g found' notFound',
     writeResults (mkBuckets found' notFound' (isExploitable g) (notExploitable g)
                             (unknownExploitability g)) = writeResults g) /\
  (forall extractServiceName isServiceVulnerable dig store s,
     reachable extractServiceName isServiceVulnerable dig store [] s ->
     globals s = noBuckets /\
     (outputFile s = None \/ outputFile s = Some "")).
Proof.
  split; [|split; [|split]].
  - intros g. unfold writeResults.
    rewrite (writeResults_section "### Is Exploitable").
    rewrite (writeResults_section "### Not Exploitable").
    pose proof (writeResults_section "### Exploitability Unknown"
                  (unknownExploitability g) "") as H.
    rewrite <- H. clear H. destruct (0 <? _); [|done].
    do 2 f_equal. by rewrite <- append_assoc, append_nil_r.
  - done.
  - done.
  - intros ext isv dig store s Hs.
    by destruct (run_of_nothing ext isv dig store s Hs) as (_ & _ & _ & Hg & Hout).
Qed.

Lemma run_of_no_candidates extractServiceName isServiceVulnerable dig store :
  reachable extractServiceName isServiceVulnerable dig store [] emptyEnd.
Proof.
  unfold reachable, start.
  eapply rtc_l. { apply step_scanned. }
  eapply rtc_l. { apply step_waited. }
  eapply rtc_l. { apply step_close. }
  eapply rtc_l. { apply step_write. }
  apply rtc_refl.
Qed.

Lemma writeResults_sections_witness :
  writeResults exampleBuckets = exampleReport /\
  globals emptyEnd = noBuckets /\
  (outputFile emptyEnd = None \/ outputFile emptyEnd = Some "").
Proof.
  destruct writeResults_sections as (Hsections & _ & _ & Hempty).
  split.
  - rewrite Hsections. reflexivity.
  - exact (Hempty wholeName noService digExample shopifyStore emptyEnd
             (run_of_no_candidates wholeName noService digExample shopifyStore)).
Defined.

(** The line of a direct match. *)
Lemma processCNAMEResult_direct extractServiceName isServiceVulnerable
    result dorder sorder g v :
  err result = None -> cname result <> "" ->
  isVulnerableCNAME (cname result) dorder = Ret (true, v) ->
  processCNAMEResult extractServiceName isServiceVulnerable result dorder sorder g =
  Ret (appendResultBasedOnVulnerability v
         ("CNAME for " +:+ domain result +:+ " is: " +:+ cname result +:+
          " (found matching fingerprint - " +:+
          (if v then "vulnerable" else "safe") +:+ ")") g).
Proof.
  intros He Hc Hm. unfold processCNAMEResult. rewrite He, Hm.
  apply String.eqb_neq in Hc. rewrite Hc.
  rewrite bool_decide_eq_false_2 by (intros H; by apply H). done.
Qed.

(** The line of a service match. *)
Lemma processCNAMEResult_service extractServiceName isServiceVulnerable
    result dorder sorder g x v service text flag :
  err result = None -> cname result <> "" ->
  isVulnerableCNAME (cname result) dorder = Ret (false, x) ->
  isServiceVulnerable (extractServiceName (cname result)) sorder =
    (true, v, service, text, flag) ->
  processCNAMEResult extractServiceName isServiceVulnerable result dorder sorder g =
  Ret (appendResultBasedOnVulnerability v
         ("CNAME for " +:+ domain result +:+ " is: " +:+ cname result +:+
          " (found potentially matching service '" +:+ service +:+ "' - " +:+
          (if v then "vulnerable" else "safe") +:+ ")") g).
Proof.
  intros He Hc Hm Hs. unfold processCNAMEResult. rewrite He, Hm, Hs.
  apply String.eqb_neq in Hc. rewrite Hc.
  rewrite bool_decide_eq_false_2 by (intros H; by apply H). done.
Qed.

(** What a drained run of the end-to-end example leaves in the lists. *)
Lemma example_drained extractServiceName isServiceVulnerable dig out e s :
  dig "a.test" = ("shop.myshopify.com.", None) ->
  dig "b.test" = (out, Some e) ->
  reachable extractServiceName isServiceVulnerable dig shopifyStore
    ["a.test"; "b.test"] s ->
  lines s = [] -> workers s = [] -> results s = [] ->
  globals s = exampleBuckets.
Proof.
  intros Ha Hb Hs Hl Hw Hr.
  destruct (drained_classified _ _ _ _ _ _ Hs Hl Hw Hr) as (log & Hlog & Hperm & _).
  assert (sends dig "a.test" = [mkResult "a.test" "shop.myshopify.com." None]) as Hsa.
  { unfold sends, queryAndSendCNAME. rewrite Ha. reflexivity. }
  assert (sends dig "b.test" =
          [mkResult "b.test" "" (Some "no CNAME record found or dig command failed")])
    as Hsb.
  { unfold sends, queryAndSendCNAME. rewrite Hb.
    by rewrite bool_decide_eq_true_2. }
  rewrite !bind_cons, Hsa, Hsb in Hperm. simpl in Hperm.
  symmetry in Hperm. apply Permutation_length_2_inv in Hperm.
  revert Hlog. generalize (globals s). intros final Hlog.
  destruct Hperm as [-> | ->].
  - inversion Hlog as [|? ? d1 s1 g1 ? ? Hd1 _ Hp1 Hlog1]; subst.
    inversion Hlog1 as [|? ? d2 s2 g2 ? ? Hd2 _ Hp2 Hlog2]; subst.
    inversion Hlog2; subst.
    apply rangeOf_shopifyStore in Hd1. subst d1.
    vm_compute in Hp1. injection Hp1 as <-.
    vm_compute in Hp2. by injection Hp2 as <-.
  - inversion Hlog as [|? ? d1 s1 g1 ? ? Hd1 _ Hp1 Hlog1]; subst.
    inversion Hlog1 as [|? ? d2 s2 g2 ? ? Hd2 _ Hp2 Hlog2]; subst.
    inversion Hlog2; subst.
    apply rangeOf_shopifyStore in Hd2. subst d2.
    vm_compute in Hp1. injection Hp1 as <-.
    vm_compute in Hp2. by injection Hp2 as <-.
Qed.

(** C3 as stated fails on its own example: the line written for "a.test"
    carries the resolved name as the resolver gave it, with its trailing dot. *)
Lemma end_to_end_line_keeps_trailing_dot :
  ~ (forall s,
       reachable wholeName noService digExample shopifyStore ["a.test"; "b.test"] s ->
       lines s = [] -> workers s = [] -> results s = [] ->
       isExploitable (globals s) =
         ["CNAME for a.test is: shop.myshopify.com (found matching fingerprint - vulnerable)"] /\
       notFound (globals s) = ["No CNAME record found for: b.test"]).
Proof.
  intros H.
  destruct (H exampleEnd run_of_example eq_refl eq_refl eq_refl) as [Habs _].
  vm_compute in Habs. discriminate.
Qed.

(** C3 (as amended): on the candidates "a.test" and "b.test", with a resolver
    that yields "shop.myshopify.com." for the first and a failure for the
    second, and the store [{myshopify.com, vulnerable}], a run that has
    classified every result leaves
    "CNAME for a.test is: shop.myshopify.com. (found matching fingerprint - vulnerable)",
    the resolved name with its trailing dot, as the only line of Exploitable,
    and "No CNAME record found for: b.test" as the only line of NoRecord;
    a direct or service match goes to Exploitable when it is vulnerable and
    to NotExploitable when it is not. *)
Theorem end_to_end_shopify :
  (forall extractServiceName isServiceVulnerable dig out e s,
     dig "a.test" = ("shop.myshopify.com.", None) ->
     dig "b.test" = (out, Some e) ->
     reachable extractServiceName isServiceVulnerable dig shopifyStore
       ["a.test"; "b.test"] s ->
     lines s = [] -> workers s = [] -> results s = [] ->
     isExploitable (globals s) =
       ["CNAME for a.test is: shop.myshopify.com. (found matching fingerprint - vulnerable)"] /\
     notFound (globals s) = ["No CNAME record found for: b.test"] /\
     notExploitable (globals s) = [] /\
     unknownExploitability (globals s) = []) /\
  (forall extractServiceName isServiceVulnerable result dorder sorder g v,
     err result = None -> cname result <> "" ->
     isVulnerableCNAME (cname result) dorder = Ret (true, v) ->
     let line := "CNAME for " +:+ domain result +:+ " is: " +:+ cname result +:+
                 " (found matching fingerprint - " +:+
                 (if v then "vulnerable" else "safe") +:+ ")" in
     processCNAMEResult extractServiceName isServiceVulnerable
       result dorder sorder g =
     Ret (if v
          then mkBuckets (found g) (notFound g) (isExploitable g ++ [line])
                         (notExploitable g) (unknownExploitability g)
          else mkBuckets (found g) (notFound g) (isExploitable g)
                         (notExploitable g ++ [line]) (unknownExploitability g))) /\
  (forall extractServiceName isServiceVulnerable result dorder sorder g
          (x v : bool) (service text : string) (flag : bool),
     err result = None -> cname result <> "" ->
     isVulnerableCNAME (cname result) dorder = Ret (false, x) ->
     isServiceVulnerable (extractServiceName (cname result)) sorder =
       (true, v, service, text, flag) ->
     let line := "CNAME for " +:+ domain result +:+ " is: " +:+ cname result +:+
                 " (found potentially matching service '" +:+ service +:+ "' - " +:+
                 (if v then "vulnerable" else "safe") +:+ ")" in
     processCNAMEResult extractServiceName isServiceVulnerable
       result dorder sorder g =
     Ret (if v
          then mkBuckets (found g) (notFound g) (isExploitable g ++ [line])
                         (notExploitable g) (unknownExploitability g)
          else mkBuckets (found g) (notFound g) (isExploitable g)
                         (notExploitable g ++ [line]) (unknownExploitability g))).
Proof.
  split; [|split].
  - intros ext isv dig out e s Ha Hb Hs Hl Hw Hr.
    rewrite (example_drained ext isv dig out e s Ha Hb Hs Hl Hw Hr).
    repeat split.
  - intros ext isv result dorder sorder g v He Hc Hm line.
    rewrite (processCNAMEResult_direct ext isv result dorder sorder g v He Hc Hm).
    unfold appendResultBasedOnVulnerability. by destruct v.
  - intros ext isv result dorder sorder g x v service text flag He Hc Hm Hs line.
    rewrite (processCNAMEResult_service ext isv result dorder sorder g x v
               service text flag He Hc Hm Hs).
    unfold appendResultBasedOnVulnerability. by destruct v.
Qed.

Lemma end_to_end_shopify_witness :
  (isExploitable exampleBuckets =
     ["CNAME for a.test is: shop.myshopify.com. (found matching fingerprint - vulnerable)"] /\
   notFound exampleBuckets = ["No CNAME record found for: b.test"] /\
   notExploitable exampleBuckets = [] /\
   unknownExploitability exampleBuckets = []) /\
  processCNAMEResult wholeName noService
    (mkResult "a.test" "shop.myshopify.com." None)
    [("Shopify", entry "myshopify.com" (VBool true))] [] noBuckets =
  Ret (mkBuckets [] []
         ["CNAME for a.test is: shop.myshopify.com. (found matching fingerprint - vulnerable)"]
         [] []) /\
  processCNAMEResult wholeName hostingService
    (mkResult "c.test" "x.randomhost.net" None)
    [("Shopify", entry "myshopify.com" (VBool true))] [] noBuckets =
  Ret (mkBuckets [] [] []
         ["CNAME for c.test is: x.randomhost.net (found potentially matching service 'hosting' - safe)"]
         []).
Proof.
  destruct end_to_end_shopify as (Hrun & Hdirect & Hservice).
  split; [|split].
  - exact (Hrun wholeName noService digExample "" "exit status 9" exampleEnd
             eq_refl eq_refl run_of_example eq_refl eq_refl eq_refl).
  - apply (Hdirect wholeName noService
             (mkResult "a.test" "shop.myshopify.com." None)
             [("Shopify", entry "myshopify.com" (VBool true))] [] noBuckets true);
      [reflexivity | discriminate | reflexivity].
  - apply (Hservice wholeName hostingService
             (mkResult "c.test" "x.randomhost.net" None)
             [("Shopify", entry "myshopify.com" (VBool true))] [] noBuckets
             false false "hosting" "" false);
      [reflexivity | discriminate | reflexivity | reflexivity].
Defined.

(** * More of [main.go] *)

(** ** [processResults] *)

Lemma processResults_partition results g :
  processResults results g =
  mkBuckets (found g ++ (foundLine <$> List.filter (fun r => negb (failed r)) results))
            (notFound g ++ (notFoundLine <$> List.filter failed results))
            (isExploitable g) (notExploitable g) (unknownExploitability g).
Proof.
  revert g. induction results as [|result rest IH]; intros g.
  - simpl. rewrite !app_nil_r. by destruct g.
  - cbn [processResults List.filter]. fold (failed result).
    destruct (failed result); rewrite IH; cbn [negb fmap list_fmap];
      cbn [found notFound isExploitable notExploitable unknownExploitability];
      by rewrite <- app_assoc.
Qed.

Lemma filter_split_length {A} (f : A -> bool) (l : list A) :
  length (List.filter (fun x => negb (f x)) l) + length (List.filter f l) = length l.
Proof. induction l as [|x l IH]; simpl; [done|]. destruct (f x); simpl; lia. Qed.

(** X1: [processResults] sorts the results it receives into [found] and
    [notFound] and keeps their order: the failed ones, in the order received,
    give the lines appended to [notFound], the others those appended to
    [found]; one line per result, and no other list changes. *)
Theorem processResults_sorts :
  forall results g,
    found (processResults results g) =
      found g ++ (foundLine <$> List.filter (fun r => negb (failed r)) results) /\
    notFound (processResults results g) =
      notFound g ++ (notFoundLine <$> List.filter failed results) /\
    length (found (processResults results g)) +
    length (notFound (processResults results g)) =
      length (found g) + length (notFound g) + length results /\
    isExploitable (processResults results g) = isExploitable g /\
    notExploitable (processResults results g) = notExploitable g /\
    unknownExploitability (processResults results g) = unknownExploitability g.
Proof.
  intros results g. rewrite processResults_partition. simpl.
  repeat split. rewrite !length_app, !length_fmap.
  pose proof (filter_split_length failed results). lia.
Qed.

(** X2: nothing [processResults] records reaches the report: [writeResults]
    writes the same bytes after it as before it. *)
Theorem processResults_not_reported :
  forall results g, writeResults (processResults results g) = writeResults g.
Proof. intros results g. by rewrite processResults_partition. Qed.

(** ** The two classifiers side by side *)

Lemma failed_false result :
  failed result = false -> err result = None /\ cname result <> "".
Proof.
  unfold failed. intros [H1 H2]%orb_false_iff. split.
  - apply bool_decide_eq_false in H1. by destruct (err result); [destruct H1|].
  - by apply String.eqb_neq.
Qed.

(** X3: on a failed result the two classifiers do the same: [processCNAMEResult]
    returns, whatever the store holds, the lists [processResults] leaves on
    that one result. *)
Theorem classifiers_agree_on_failure :
  forall extractServiceName isServiceVulnerable result dorder sorder g,
    failed result = true ->
    processCNAMEResult extractServiceName isServiceVulnerable result dorder sorder g =
    Ret (processResults [result] g).
Proof.
  intros ext isv result dorder sorder g H.
  unfold processCNAMEResult. cbn [processResults].
  fold (failed result). by rewrite H.
Qed.

Lemma classifiers_agree_on_failure_witness :
  processCNAMEResult wholeName noService
    (mkResult "b.test" "" (Some "no CNAME record found or dig command failed"))
    [("svc", ∅)] [] noBuckets =
  Ret (processResults
         [mkResult "b.test" "" (Some "no CNAME record found or dig command failed")]
         noBuckets).
Proof.
  apply (classifiers_agree_on_failure wholeName noService
           (mkResult "b.test" "" (Some "no CNAME record found or dig command failed"))).
  reflexivity.
Defined.

(** X4: a resolved name that no pattern of the store is a suffix of, and for
    which the service helper reports no match, is classified as Unknown; its
    line is "CNAME for <domain> is: <cname>", the line [processResults] files
    under [found] for the same result. *)
Theorem processCNAMEResult_unknown :
  forall extractServiceName isServiceVulnerable result dorder sorder g
         (v : bool) (service text : string) (flag : bool),
    failed result = false ->
    Forall (fun e => unmatched (TrimSuffix (cname result) ".") e.2) dorder ->
    isServiceVulnerable (extractServiceName (cname result)) sorder =
      (false, v, service, text, flag) ->
    processCNAMEResult extractServiceName isServiceVulnerable result dorder sorder g =
      Ret (mkBuckets (found g) (notFound g) (isExploitable g) (notExploitable g)
             (unknownExploitability g ++ [foundLine result])) /\
    found (processResults [result] g) = found g ++ [foundLine result].
Proof.
  intros ext isv result dorder sorder g v service text flag Hf Hno Hs. split.
  - unfold processCNAMEResult. fold (failed result). rewrite Hf.
    unfold isVulnerableCNAME.
    rewrite <- (app_nil_r dorder), rangeFingerprints_skip by done.
    cbn [rangeFingerprints]. by rewrite Hs.
  - cbn [processResults]. fold (failed result). by rewrite Hf.
Qed.

Lemma processCNAMEResult_unknown_witness :
  processCNAMEResult wholeName noService (mkResult "c.test" "x.randomhost.net." None)
    [("Shopify", entry "myshopify.com" (VBool true))] [] noBuckets =
    Ret (mkBuckets [] [] [] [] ["CNAME for c.test is: x.randomhost.net."]) /\
  found (processResults [mkResult "c.test" "x.randomhost.net." None] noBuckets) =
    ["CNAME for c.test is: x.randomhost.net."].
Proof.
  apply (processCNAMEResult_unknown wholeName noService
           (mkResult "c.test" "x.randomhost.net." None)
           [("Shopify", entry "myshopify.com" (VBool true))] [] noBuckets
           false "" "" false).
  - reflexivity.
  - repeat constructor. exists ["myshopify.com"]. split; reflexivity.
  - reflexivity.
Defined.

(** ** More on [isVulnerableCNAME] *)

Lemma HasSuffix_empty s : HasSuffix s "" = true.
Proof. apply HasSuffix_spec. exists s. by rewrite append_nil_r. Qed.

(** A non-empty suffix of a string that ends in a dot ends in a dot. *)
Lemma suffix_of_dotted q p s :
  q +:+ p = s +:+ "." -> p <> "" -> exists p', p = p' +:+ ".".
Proof.
  revert s. induction q as [|c q IH]; intros s H Hp.
  - exists s. exact H.
  - destruct s as [|c' s].
    + change (String c (q +:+ p) = String "." "") in H.
      injection H as _ H. destruct q; [by destruct Hp | discriminate].
    + change (String c (q +:+ p) = String c' (s +:+ ".")) in H.
      injection H as _ H. by apply (IH s).
Qed.

(** X5: whether [isVulnerableCNAME] finds a match does not depend on the
    order in which the range visits a well-shaped store; only the flag
    returned with a match does. *)
Theorem isVulnerableCNAME_match_any_order :
  forall (m : fingerprints) cname order1 order2,
    rangeOf m order1 -> rangeOf m order2 ->
    map_Forall (fun _ fp => wellShaped fp) m ->
    exists directMatch v1 v2,
      isVulnerableCNAME cname order1 = Ret (directMatch, v1) /\
      isVulnerableCNAME cname order2 = Ret (directMatch, v2).
Proof.
  intros m cname order1 order2 Hr1 Hr2 Hm. unfold isVulnerableCNAME.
  set (name := TrimSuffix cname ".").
  assert (order1 ≡ₚ order2) as Hperm by (unfold rangeOf in *; by rewrite Hr1, Hr2).
  destruct (rangeFingerprints_wellShaped name order1 (rangeOf_wellShaped _ _ Hr1 Hm))
    as [[Hno1 ->] | (pre1 & k1 & fp1 & post1 & b1 & Ho1 & _ & Hm1 & ->)];
  destruct (rangeFingerprints_wellShaped name order2 (rangeOf_wellShaped _ _ Hr2 Hm))
    as [[Hno2 ->] | (pre2 & k2 & fp2 & post2 & b2 & Ho2 & _ & Hm2 & ->)].
  - by exists false, false, false.
  - exfalso. rewrite Forall_forall in Hno1.
    apply (unmatched_not_matched name fp2 b2); [|done].
    apply (Hno1 (k2, fp2)). rewrite Hperm, Ho2. set_solver.
  - exfalso. rewrite Forall_forall in Hno2.
    apply (unmatched_not_matched name fp1 b1); [|done].
    apply (Hno2 (k1, fp1)). rewrite <- Hperm, Ho1. set_solver.
  - by exists true, b1, b2.
Qed.

Lemma isVulnerableCNAME_match_any_order_witness :
  exists directMatch v1 v2,
    isVulnerableCNAME "x.a.example." twoEntriesLoaded = Ret (directMatch, v1) /\
    isVulnerableCNAME "x.a.example." (reverse twoEntriesLoaded) = Ret (directMatch, v2).
Proof.
  apply (isVulnerableCNAME_match_any_order twoEntries).
  - by apply rangeOf_twoEntries_perm.
  - apply rangeOf_twoEntries_reverse.
  - unfold twoEntries, twoEntriesLoaded. cbn [list_to_map foldr uncurry].
    apply map_Forall_insert_2; [split; by eexists|].
    apply map_Forall_insert_2; [split; by eexists|].
    apply map_Forall_empty.
Defined.

(** X6: a name is classified alike with and without its root dot; of two
    trailing dots only one is removed, so that a name ending in ".." matches
    no pattern that is non-empty and does not itself end in a dot. *)
Theorem isVulnerableCNAME_root_dot :
  (forall name order,
     HasSuffix name "." = false ->
     isVulnerableCNAME (name +:+ ".") order = isVulnerableCNAME name order) /\
  (forall name order,
     Forall (fun e => exists ps,
               patterns e.2 = Some ps /\
               Forall (fun p => p <> "" /\ HasSuffix p "." = false) ps) order ->
     isVulnerableCNAME (name +:+ "..") order = Ret (false, false)).
Proof.
  split.
  - intros name order H. unfold isVulnerableCNAME.
    by rewrite TrimSuffix_append, TrimSuffix_other.
  - intros name order Hall. unfold isVulnerableCNAME.
    replace (name +:+ "..") with ((name +:+ ".") +:+ ".")
      by (by rewrite <- append_assoc).
    rewrite TrimSuffix_append.
    rewrite <- (app_nil_r order), rangeFingerprints_skip; [done|].
    eapply Forall_impl; [exact Hall|]. intros [k fp] (ps & Hps & Hpat).
    exists ps. split; [done|].
    apply not_true_iff_false. intros (p & Hin & Hsuf)%existsb_exists.
    apply list_elem_of_In in Hin. rewrite Forall_forall in Hpat.
    destruct (Hpat p Hin) as [Hne Hdot].
    apply HasSuffix_spec in Hsuf as [q Hq].
    destruct (suffix_of_dotted q p name (eq_sym Hq) Hne) as [p' ->].
    assert (HasSuffix (p' +:+ ".") "." = true) as Habs
      by (apply HasSuffix_spec; eauto).
    congruence.
Qed.

Lemma isVulnerableCNAME_root_dot_witness :
  isVulnerableCNAME ("shop.myshopify.com" +:+ ".") (map_to_list shopifyStore) =
    isVulnerableCNAME "shop.myshopify.com" (map_to_list shopifyStore) /\
  isVulnerableCNAME ("shop.myshopify.com" +:+ "..")
    [("Shopify", entry "myshopify.com" (VBool true))] = Ret (false, false).
Proof.
  destruct isVulnerableCNAME_root_dot as [Hone Htwo]. split.
  - apply Hone. reflexivity.
  - apply Htwo. constructor; [|constructor]. exists ["myshopify.com"].
    split; [reflexivity|].
    constructor; [split; [discriminate | reflexivity] | constructor].
Defined.

(** X7: an entry whose "cname" list is empty is passed over, its "vulnerable"
    field not being looked at; an entry with the empty string among its
    patterns matches every name. *)
Theorem isVulnerableCNAME_empty_patterns :
  (forall cname k (fp : fingerprint) rest,
     fp !! "cname" = Some (VArray []) ->
     isVulnerableCNAME cname ((k, fp) :: rest) = isVulnerableCNAME cname rest) /\
  (forall cname k fp rest ps b,
     patterns fp = Some ps -> "" ∈ ps -> verdict fp = Some b ->
     isVulnerableCNAME cname ((k, fp) :: rest) = Ret (true, b)).
Proof.
  split.
  - intros cname k fp rest H. unfold isVulnerableCNAME. simpl. by rewrite H.
  - intros cname k fp rest ps b Hps Hin Hv. unfold isVulnerableCNAME.
    apply rangeFingerprints_matched. exists ps. split; [done|]. split; [|done].
    apply existsb_exists. exists "". split; [by apply list_elem_of_In|].
    apply HasSuffix_empty.
Qed.

Lemma isVulnerableCNAME_empty_patterns_witness :
  isVulnerableCNAME "x.randomhost.net"
    (("empty", {[ "cname" := VArray [] ]}) ::
     [("Shopify", entry "myshopify.com" (VBool true))]) =
    isVulnerableCNAME "x.randomhost.net"
      [("Shopify", entry "myshopify.com" (VBool true))] /\
  isVulnerableCNAME "x.randomhost.net"
    (("any", entry "" (VBool false)) :: []) = Ret (true, false).
Proof.
  destruct isVulnerableCNAME_empty_patterns as [Hskip Hany]. split.
  - apply Hskip. reflexivity.
  - apply (Hany "x.randomhost.net" "any" (entry "" (VBool false)) [] [""] false).
    + reflexivity.
    + set_solver.
    + reflexivity.
Defined.

(** ** The takeover checks *)

Lemma prefix_spec sub s :
  String.prefix sub s = true <-> exists q, s = sub +:+ q.
Proof.
  revert s. induction sub as [|a sub IH]; intros s.
  - split; [by exists s | by destruct s].
  - destruct s as [|b s].
    + change (String.prefix (String a sub) "") with false.
      split; [done | by intros [q [=]]].
    + change (String.prefix (String a sub) (String b s))
        with (if Ascii.ascii_dec a b then String.prefix sub s else false).
      destruct (Ascii.ascii_dec a b) as [-> | Hne].
      * rewrite IH. split.
        -- intros [q ->]. by exists q.
        -- intros [q H]. exists q.
           change (String b s = String b (sub +:+ q)) in H. by injection H.
      * split; [done|]. intros [q H].
        change (String b s = String a (sub +:+ q)) in H. injection H as -> _.
        by destruct Hne.
Qed.

(** [Contains] is substring containment. *)
Lemma Contains_spec s sub :
  Contains s sub = true <-> exists p q, s = p +:+ sub +:+ q.
Proof.
  induction s as [|c s IH].
  - cbn [Contains]. rewrite orb_false_r, prefix_spec. split.
    + intros [q H]. by exists "", q.
    + intros (p & q & H). destruct p; [by exists q | discriminate].
  - cbn [Contains]. rewrite orb_true_iff, prefix_spec, IH. split.
    + intros [[q H] | (p & q & H)].
      * by exists "", q.
      * exists (String c p), q. by rewrite H.
    + intros (p & q & H). destruct p as [|c' p].
      * left. by exists q.
      * right. exists p, q.
        change (String c s = String c' (p +:+ sub +:+ q)) in H. by injection H.
Qed.

(** X8: [checkTakeover] reports a takeover in exactly two cases: with the
    NXDOMAIN flag, when the lookup of "_cname.<domain>" fails with a DNS error
    that says not found; without it, when "http://<domain>" answers with a
    readable body that contains the fingerprint text. *)
Theorem checkTakeover_true :
  forall LookupCNAME Get domain fingerprintText hasNXDOMAINFlag,
    checkTakeover LookupCNAME Get domain fingerprintText hasNXDOMAINFlag = true <->
    (hasNXDOMAINFlag = true /\
     LookupCNAME ("_cname." +:+ domain) = LookupDNSError true) \/
    (hasNXDOMAINFlag = false /\
     exists p q, Get ("http://" +:+ domain) = Body (p +:+ fingerprintText +:+ q)).
Proof.
  intros lookup get domain text flag.
  unfold checkTakeover, checkTakeoverDNS, checkTakeoverHTTP. destruct flag.
  - destruct (lookup _) as [c | [] |]; split; try done; try (by left);
      intros [[_ [=]] | [[=] _]].
  - destruct (get _) as [| | body].
    + split; [done|]. by intros [[[=] _] | [_ (p & q & [=])]].
    + split; [done|]. by intros [[[=] _] | [_ (p & q & [=])]].
    + rewrite Contains_spec. split.
      * intros (p & q & ->). right. split; [done|]. by exists p, q.
      * intros [[[=] _] | [_ (p & q & [= ->])]]. by exists p, q.
Qed.

Lemma checkTakeover_true_witness :
  checkTakeover lookupExample getExample "gone.test" "NoSuchBucket" true = true /\
  checkTakeover lookupExample getExample "parked.test"
    "There isn't a GitHub Pages site here." false = true.
Proof.
  split.
  - apply (proj2 (checkTakeover_true lookupExample getExample "gone.test"
                    "NoSuchBucket" true)).
    left. split; reflexivity.
  - apply (proj2 (checkTakeover_true lookupExample getExample "parked.test"
                    "There isn't a GitHub Pages site here." false)).
    right. split; [reflexivity|]. by exists "<h1>", "</h1>".
Defined.

(** X9: the fingerprint text plays no part in the DNS check, and a name that
    resolves is never reported there; in the HTTP check an empty fingerprint
    text makes every answer with a readable body count as a takeover. *)
Theorem checkTakeover_fingerprint_text :
  (forall LookupCNAME Get domain text1 text2,
     checkTakeover LookupCNAME Get domain text1 true =
     checkTakeover LookupCNAME Get domain text2 true) /\
  (forall LookupCNAME Get domain text target,
     LookupCNAME ("_cname." +:+ domain) = LookupOk target ->
     checkTakeover LookupCNAME Get domain text true = false) /\
  (forall LookupCNAME Get domain body,
     Get ("http://" +:+ domain) = Body body ->
     checkTakeover LookupCNAME Get domain "" false = true).
Proof.
  split; [done|]. split.
  - intros lookup get domain text target H.
    unfold checkTakeover, checkTakeoverDNS. by rewrite H.
  - intros lookup get domain body H.
    unfold checkTakeover, checkTakeoverHTTP. rewrite H.
    apply Contains_spec. by exists "", body.
Qed.

Lemma checkTakeover_fingerprint_text_witness :
  checkTakeover lookupExample getExample "live.test" "NoSuchBucket" true = false /\
  checkTakeover lookupExample getExample "parked.test" "" false = true.
Proof.
  destruct checkTakeover_fingerprint_text as (_ & Hlive & Hempty). split.
  - apply (Hlive lookupExample getExample "live.test" "NoSuchBucket" "target.test.").
    reflexivity.
  - apply (Hempty lookupExample getExample "parked.test"
             "<h1>There isn't a GitHub Pages site here.</h1>").
    reflexivity.
Defined.

(** ** More on [writeResults] *)

Lemma append_eq_nil (a b : string) : a +:+ b = "" -> a = "" /\ b = "".
Proof. destruct a; [done | discriminate]. Qed.

(** X10: the report is empty exactly when the three lists it is made of are
    empty, however many lines [notFound] and [found] hold. *)
Theorem writeResults_empty :
  forall g,
    writeResults g = "" <->
    isExploitable g = [] /\ notExploitable g = [] /\ unknownExploitability g = [].
Proof.
  intros [f nf ex nex unk]. unfold writeResults. simpl. split.
  - intros H. apply append_eq_nil in H as [H1 H]. apply append_eq_nil in H as [H2 H3].
    destruct ex as [|x ex]; [|by apply append_eq_nil in H1 as [[=] _]].
    destruct nex as [|y nex]; [|by apply append_eq_nil in H2 as [[=] _]].
    destruct unk as [|z unk]; [|by apply append_eq_nil in H3 as [[=] _]].
    done.
  - by intros (-> & -> & ->).
Qed.

Lemma writeResults_empty_witness :
  writeResults (mkBuckets ["CNAME for a.test is: b.test."]
                          ["No CNAME record found for: b.test"] [] [] []) = "".
Proof.
  apply (proj2 (writeResults_empty
                  (mkBuckets ["CNAME for a.test is: b.test."]
                             ["No CNAME record found for: b.test"] [] [] []))).
  repeat split.
Defined.

(** ** From the resolver to the classifier *)

Lemma length_bytes s : length (bytes s) = String.length s.
Proof.
  unfold bytes. rewrite length_fmap.
  induction s as [|c s IH]; simpl; [done | by rewrite IH].
Qed.

Lemma trimLeftSpace_spaces fuel (bs : list N) :
  length bs <= fuel ->
  forallb (fun b => bool_decide (b ∈ [9; 10; 11; 12; 13; 32]%N)) bs = true ->
  trimLeftSpace spaceWidth fuel bs = [].
Proof.
  revert bs. induction fuel as [|fuel IH]; intros [|b bs] Hlen Hall;
    simpl in Hlen; try done; try lia.
  cbn [forallb] in Hall. apply andb_true_iff in Hall as [Hb Hall].
  apply bool_decide_eq_true in Hb.
  assert (spaceWidth (b :: bs) = 1) as Hw.
  { repeat (apply elem_of_cons in Hb as [-> | Hb]; [reflexivity|]).
    by apply elem_of_nil in Hb. }
  cbn [trimLeftSpace]. rewrite Hw. cbn [drop]. rewrite drop_0.
  apply IH; [lia | done].
Qed.

(** A string of ASCII white space is trimmed to the empty string. *)
Lemma TrimSpace_spaces s : asciiSpaces s = true -> TrimSpace s = "".
Proof.
  intros H. unfold TrimSpace.
  rewrite trimLeftSpace_spaces; [done | by rewrite length_bytes | done].
Qed.

Lemma sent_result dig d result :
  sends dig d = [result] ->
  domain result = d /\
  (err result <> None -> cname result = "") /\
  (failed result = true <->
   unresolved (dig d) = true \/ TrimSpace (dig d).1 = "").
Proof.
  unfold sends, queryAndSendCNAME, unresolved, failed.
  destruct (dig d) as [out e]. cbn [fst snd].
  destruct (bool_decide (e <> None) || (String.length out =? 0)) eqn:E.
  - intros [= <-]. cbn [domain cname err]. repeat split; auto.
  - intros [= <-]. cbn [domain cname err]. split; [done|]. split; [done|].
    rewrite bool_decide_eq_false_2 by (intros H; by apply H). cbn [orb].
    rewrite String.eqb_eq. split; [by right | by intros [[=] | ?]].
Qed.

(** X11: the result [queryAndSendCNAME] sends for a domain names that domain
    and never carries both an error and a name; the classifiers treat it as
    failed exactly when the command failed, printed nothing, or printed
    white space only. *)
Theorem queryAndSendCNAME_failed :
  forall dig d result,
    sends dig d = [result] ->
    domain result = d /\
    (err result <> None -> cname result = "") /\
    (failed result = true <->
     unresolved (dig d) = true \/ TrimSpace (dig d).1 = "").
Proof. intros dig d result. apply sent_result. Qed.

Lemma queryAndSendCNAME_failed_witness :
  domain (mkResult "a.test" "shop.myshopify.com." None) = "a.test" /\
  (err (mkResult "a.test" "shop.myshopify.com." None) <> None ->
   cname (mkResult "a.test" "shop.myshopify.com." None) = "") /\
  (failed (mkResult "a.test" "shop.myshopify.com." None) = true <->
   unresolved (digExample "a.test") = true \/
   TrimSpace (digExample "a.test").1 = "").
Proof.
  apply (queryAndSendCNAME_failed digExample "a.test"). reflexivity.
Defined.

(** X12: when the command succeeds but prints ASCII white space only, such as
    a lone newline, the result sent has no error and an empty name, and
    [processCNAMEResult] files the domain under [notFound] without looking at
    the store. *)
Theorem blank_answer_is_NoRecord :
  forall extractServiceName isServiceVulnerable dig d out dorder sorder g,
    dig d = (out, None) ->
    asciiSpaces out = true ->
    exists result,
      sends dig d = [result] /\
      (out <> "" -> err result = None) /\
      processCNAMEResult extractServiceName isServiceVulnerable
        result dorder sorder g =
      Ret (mkBuckets (found g)
             (notFound g ++ ["No CNAME record found for: " +:+ d])
             (isExploitable g) (notExploitable g) (unknownExploitability g)).
Proof.
  intros ext isv dig d out dorder sorder g Hd Hout.
  unfold sends, queryAndSendCNAME. rewrite Hd.
  rewrite bool_decide_eq_false_2 by (intros H; by apply H). cbn [orb].
  destruct (String.length out =? 0) eqn:E.
  - eexists. split; [reflexivity|]. split.
    + intros Hne. apply Nat.eqb_eq in E. by destruct out.
    + reflexivity.
  - eexists. split; [reflexivity|]. split; [done|].
    unfold processCNAMEResult. cbn [err cname domain].
    rewrite (TrimSpace_spaces out Hout).
    by rewrite bool_decide_eq_false_2 by (intros H; by apply H).
Qed.

Lemma blank_answer_is_NoRecord_witness :
  exists result,
    sends (fun _ => (newline, None)) "a.test" = [result] /\
    (newline <> "" -> err result = None) /\
    processCNAMEResult wholeName noService result
      (map_to_list shopifyStore) [] noBuckets =
    Ret (mkBuckets [] ([] ++ ["No CNAME record found for: " +:+ "a.test"]) [] [] []).
Proof.
  apply (blank_answer_is_NoRecord wholeName noService (fun _ => (newline, None))
           "a.test" newline (map_to_list shopifyStore) [] noBuckets);
    reflexivity.
Defined.

(** ** More on the goroutines of [checkCNAMEs] *)

Lemma length_queryAndSendCNAME dig d rs :
  length (queryAndSendCNAME dig d rs) = S (length rs).
Proof.
  rewrite queryAndSendCNAME_sends, length_app.
  destruct (sends_one dig d) as (r & -> & _). simpl. lia.
Qed.

Lemma length_bind_sends dig (ds : list string) :
  length (ds ≫= sends dig) = length ds.
Proof.
  induction ds as [|d ds IH]; [done|].
  rewrite bind_cons, length_app, IH.
  by destruct (sends_one dig d) as (r & -> & _).
Qed.

Lemma length_bind_owed dig (ws : list worker) :
  length (ws ≫= owed dig) = length (List.filter querying ws).
Proof.
  induction ws as [|w ws IH]; [done|].
  rewrite bind_cons, length_app, IH. destruct w as [d| |]; simpl; [|done|done].
  by destruct (sends_one dig d) as (r & -> & _).
Qed.

Section Safety.

Variable extractServiceName : string -> string.
Variable isServiceVulnerable :
  string -> list (string * fingerprint) -> bool * bool * string * string * bool.
Variable dig : string -> string * option string.
Variable store : fingerprints.

Local Abbreviation next := (step extractServiceName isServiceVulnerable dig store).
Local Abbreviation reached :=
  (reachable extractServiceName isServiceVulnerable dig store).

Lemma actionsLeft_step s s' : next s s' -> actionsLeft s' < actionsLeft s.
Proof.
  unfold actionsLeft. intros Hstep.
  destruct Hstep; cbn [lines workers results pc supervisorWeight];
    rewrite ?fmap_app, ?length_queryAndSendCNAME;
    cbn [fmap list_fmap workerWeight length];
    rewrite ?sum_list_with_app; cbn [sum_list_with]; unfold id; lia.
Qed.

End Safety.

(** X14: the deferred calls of a worker are safe: a worker that has still to
    send finds [results] open, one that has still to receive from [sem] finds a
    token in it, and one that has still to call [wg.Done()] finds the counter
    positive. *)
Theorem worker_calls_safe :
  forall extractServiceName isServiceVulnerable dig store candidates s,
    reachable extractServiceName isServiceVulnerable dig store candidates s ->
    (forall ws1 d ws2, workers s = ws1 ++ Querying d :: ws2 -> closed s = false) /\
    (forall ws1 ws2, workers s = ws1 ++ Releasing :: ws2 -> 0 < sem s) /\
    (forall ws1 ws2, workers s = ws1 ++ Finishing :: ws2 -> 0 < wg s).
Proof.
  intros ext isv dig store candidates s Hs.
  destruct (slotsHeld_reachable ext isv dig store candidates s Hs)
    as (Hsem & _ & Hwg & _ & Hws).
  split; [|split].
  - intros ws1 d ws2 Hw. destruct (closed s) eqn:Hc; [|done]. exfalso.
    destruct (closed_late ext isv dig store candidates s Hs Hc) as [Hpc | Hpc];
      rewrite Hws in Hw by (by rewrite Hpc);
      by apply app_cons_not_nil in Hw.
  - intros ws1 ws2 Hw. rewrite Hsem, Hw, List.filter_app, length_app. simpl. lia.
  - intros ws1 ws2 Hw. rewrite Hwg, Hw, length_app. simpl. lia.
Qed.

Lemma worker_calls_safe_witness :
  (forall ws1 d ws2,
     workers twoInFlight = ws1 ++ Querying d :: ws2 -> closed twoInFlight = false) /\
  (forall ws1 ws2, workers twoInFlight = ws1 ++ Releasing :: ws2 -> 0 < sem twoInFlight) /\
  (forall ws1 ws2, workers twoInFlight = ws1 ++ Finishing :: ws2 -> 0 < wg twoInFlight).
Proof.
  exact (worker_calls_safe wholeName noService digExample shopifyStore
           ["a.test"; "b.test"] twoInFlight run_two_in_flight).
Defined.

(** X15: at every moment each candidate is in exactly one place: a line not
    yet read, a worker that has not sent yet, a result in the channel, or a
    line in one of the four buckets. *)
Theorem candidates_conserved :
  forall extractServiceName isServiceVulnerable dig store candidates s,
    reachable extractServiceName isServiceVulnerable dig store candidates s ->
    length (lines s) + inFlight s + length (results s) + entries (globals s) =
    length candidates.
Proof.
  intros ext isv dig store candidates s Hs.
  destruct (accounted_reachable ext isv dig store candidates s Hs)
    as (log & Hlog & Hperm).
  apply Permutation_length in Hperm.
  rewrite !length_app, !length_bind_sends, length_bind_owed in Hperm.
  rewrite (classified_entries _ _ _ _ _ _ Hlog). unfold inFlight.
  change (entries noBuckets) with 0. lia.
Qed.

Lemma candidates_conserved_witness :
  length (lines exampleEnd) + inFlight exampleEnd + length (results exampleEnd) +
  entries (globals exampleEnd) = length ["a.test"; "b.test"].
Proof.
  exact (candidates_conserved wholeName noService digExample shopifyStore
           ["a.test"; "b.test"] exampleEnd run_of_example).
Defined.

(** X16: every action of a goroutine uses up the actions left, so a run on N
    candidates takes at most 6 N + 4 actions: no goroutine loops. *)
Theorem runs_are_bounded :
  forall extractServiceName isServiceVulnerable dig store candidates n s,
    nsteps (step extractServiceName isServiceVulnerable dig store) n
           (start candidates) s ->
    n + actionsLeft s <= 6 * length candidates + 4.
Proof.
  intros ext isv dig store candidates n s H.
  assert (forall x, nsteps (step ext isv dig store) n x s ->
                    n + actionsLeft s <= actionsLeft x) as Hgen.
  { clear H. induction n as [|n IH]; intros x Hx.
    - inversion Hx; subst. lia.
    - inversion Hx as [|? ? y ? Hstep Hrest]; subst.
      apply actionsLeft_step in Hstep. specialize (IH y Hrest). lia. }
  specialize (Hgen _ H).
  change (actionsLeft (start candidates))
    with (6 * length candidates + 0 + 0 + 4) in Hgen.
  lia.
Qed.

(** The run of the end-to-end example, action by action. *)
Lemma run_of_example_actions :
  nsteps (step wholeName noService digExample shopifyStore) 14
         (start ["a.test"; "b.test"]) exampleEnd.
Proof.
  pose proof (proj2 (rangeOf_shopifyStore _) eq_refl) as Hrange.
  unfold start.
  eapply nsteps_l. { apply step_spawn. unfold maxConcurrency. lia. }
  eapply nsteps_l.
  { apply (step_query _ _ _ _ ["b.test"] Scanning [] "a.test" []);
      [done | unfold resultsCapacity; simpl; lia]. }
  eapply nsteps_l. { by apply (step_release _ _ _ _ ["b.test"] Scanning [] []). }
  eapply nsteps_l. { by apply (step_done _ _ _ _ ["b.test"] Scanning [] []). }
  eapply nsteps_l.
  { eapply (step_consume _ _ _ _ ["b.test"] Scanning [] 0 0
             (mkResult "a.test" "shop.myshopify.com." None) [] false noBuckets None
             _ _ _ ltac:(done) Hrange Hrange).
    reflexivity. }
  eapply nsteps_l. { apply step_spawn. unfold maxConcurrency. lia. }
  eapply nsteps_l.
  { apply (step_query _ _ _ _ [] Scanning [] "b.test" []);
      [done | unfold resultsCapacity; simpl; lia]. }
  eapply nsteps_l. { by apply (step_release _ _ _ _ [] Scanning [] []). }
  eapply nsteps_l. { by apply (step_done _ _ _ _ [] Scanning [] []). }
  eapply nsteps_l.
  { eapply (step_consume _ _ _ _ [] Scanning [] 0 0
             (mkResult "b.test" "" (Some "no CNAME record found or dig command failed"))
             [] false _ None _ _ _ ltac:(done) Hrange Hrange).
    reflexivity. }
  eapply nsteps_l. { apply step_scanned. }
  eapply nsteps_l. { apply step_waited. }
  eapply nsteps_l. { apply step_close. }
  eapply nsteps_l. { apply step_write. }
  apply nsteps_O.
Qed.

Lemma runs_are_bounded_witness :
  14 + actionsLeft exampleEnd <= 6 * length ["a.test"; "b.test"] + 4.
Proof.
  exact (runs_are_bounded wholeName noService digExample shopifyStore
           ["a.test"; "b.test"] 14 exampleEnd run_of_example_actions).
Defined.

Section Liveness.

Variable extractServiceName : string -> string.
Variable isServiceVulnerable :
  string -> list (string * fingerprint) -> bool * bool * string * string * bool.
Variable dig : string -> string * option string.
Variable store : fingerprints.

Local Abbreviation next := (step extractServiceName isServiceVulnerable dig store).
Local Abbreviation reached :=
  (reachable extractServiceName isServiceVulnerable dig store).
Local Abbreviation consumed :=
  (classified extractServiceName isServiceVulnerable store).

(** Failed results leave the three lists of the report as they are. *)
Lemma classified_failed g log g' :
  consumed g log g' ->
  Forall (fun r => failed r = true) log ->
  isExploitable g' = isExploitable g /\
  notExploitable g' = notExploitable g /\
  unknownExploitability g' = unknownExploitability g.
Proof.
  induction 1 as [g | g r d s g1 log g2 _ _ Hp _ IH]; [done|].
  intros [Hr Hlog]%Forall_cons. destruct (IH Hlog) as (-> & -> & ->).
  unfold processCNAMEResult in Hp. fold (failed r) in Hp. rewrite Hr in Hp.
  by injection Hp as <-.
Qed.

Lemma unresolved_run_quiet candidates s :
  (forall d, d ∈ candidates ->
             unresolved (dig d) = true \/ TrimSpace (dig d).1 = "") ->
  reached candidates s ->
  isExploitable (globals s) = [] /\ notExploitable (globals s) = [] /\
  unknownExploitability (globals s) = [].
Proof.
  intros Hfail Hs.
  destruct (accounted_reachable _ _ _ _ candidates s Hs) as (log & Hlog & Hperm).
  apply (classified_failed _ _ _ Hlog). apply Forall_forall. intros r Hr.
  assert (r ∈ candidates ≫= sends dig) as Hin by (rewrite Hperm; set_solver).
  apply list_elem_of_bind in Hin as (d & Hrd & Hd).
  destruct (sends_one dig d) as (r' & Hsent & _).
  rewrite Hsent in Hrd. apply list_elem_of_singleton in Hrd as ->.
  by apply (sent_result dig d r' Hsent), Hfail.
Qed.

Lemma unresolved_run_report candidates s :
  (forall d, d ∈ candidates ->
             unresolved (dig d) = true \/ TrimSpace (dig d).1 = "") ->
  reached candidates s ->
  outputFile s = None \/ outputFile s = Some "".
Proof.
  intros Hfail. unfold reachable. revert s.
  apply (rtc_ind_r (fun s => outputFile s = None \/ outputFile s = Some "")).
  - by left.
  - intros y z Hy Hstep IH. destruct Hstep; try exact IH.
    right. destruct (unresolved_run_quiet candidates _ Hfail Hy) as (H1 & H2 & H3).
    simpl in *. unfold writeResults. simpl. by rewrite H1, H2, H3.
Qed.






End Liveness.

(** X17: when the resolver gives no name for any candidate (the command fails,
    prints nothing, or prints white space only), the three lists of the report
    stay empty throughout the run and the report, once written, is empty. *)
Theorem unresolved_run_writes_nothing :
  forall extractServiceName isServiceVulnerable dig store candidates s,
    (forall d, d ∈ candidates ->
               unresolved (dig d) = true \/ TrimSpace (dig d).1 = "") ->
    reachable extractServiceName isServiceVulnerable dig store candidates s ->
    isExploitable (globals s) = [] /\ notExploitable (globals s) = [] /\
    unknownExploitability (globals s) = [] /\
    (outputFile s = None \/ outputFile s = Some "").
Proof.
  intros ext isv dig store candidates s Hfail Hs.
  destruct (unresolved_run_quiet ext isv dig store candidates s Hfail Hs)
    as (H1 & H2 & H3).
  repeat split; try done.
  by apply (unresolved_run_report ext isv dig store candidates s).
Qed.






Lemma unresolved_run_writes_nothing_witness :
  let s := mkPipeline [] Returned [] 0 0 (sends digExample "b.test") true
                      noBuckets (Some "") in
  isExploitable (globals s) = [] /\ notExploitable (globals s) = [] /\
  unknownExploitability (globals s) = [] /\
  (outputFile s = None \/ outputFile s = Some "").
Proof.
  apply (unresolved_run_writes_nothing wholeName noService digExample shopifyStore
           ["b.test"]).
  - intros d ->%list_elem_of_singleton. left. reflexivity.
  - apply run_without_consumer.
Defined.


(** ** What the report holds *)

Lemma Contains_append_l a b sub :
  Contains a sub = true -> Contains (a +:+ b) sub = true.
Proof.
  rewrite !Contains_spec. intros (p & q & ->). exists p, (q +:+ b).
  by rewrite <- !append_assoc.
Qed.

Lemma Contains_append_r a b sub :
  Contains b sub = true -> Contains (a +:+ b) sub = true.
Proof.
  rewrite !Contains_spec. intros (p & q & ->). exists (a +:+ p), q.
  by rewrite <- !append_assoc.
Qed.

Lemma writeItems_bullet item items :
  item ∈ items -> Contains (writeItems items) ("- " +:+ item +:+ newline) = true.
Proof.
  induction items as [|x items IH]; [by intros ?%elem_of_nil|].
  intros [-> | Hin]%elem_of_cons; cbn [writeItems].
  - apply Contains_append_l, Contains_spec. exists "", "".
    by rewrite append_nil_r.
  - by apply Contains_append_r, IH.
Qed.

Lemma nonempty_length {A} (x : A) (l : list A) : x ∈ l -> (0 <? length l) = true.
Proof. destruct l; [by intros ?%elem_of_nil | done]. Qed.

(** X19: no line of the three lists is left out of the report: each is
    written as a bulleted line of its own. *)
Theorem writeResults_holds_every_line :
  forall g item,
    item ∈ isExploitable g \/ item ∈ notExploitable g \/
    item ∈ unknownExploitability g ->
    Contains (writeResults g) ("- " +:+ item +:+ newline) = true.
Proof.
  intros g item H. unfold writeResults. destruct H as [H | [H | H]].
  - apply Contains_append_l. rewrite (nonempty_length _ _ H).
    apply Contains_append_r, Contains_append_l. by apply writeItems_bullet.
  - apply Contains_append_r, Contains_append_l. rewrite (nonempty_length _ _ H).
    apply Contains_append_r, Contains_append_l. by apply writeItems_bullet.
  - do 2 apply Contains_append_r. rewrite (nonempty_length _ _ H).
    apply Contains_append_r. by apply writeItems_bullet.
Qed.

Lemma writeResults_holds_every_line_witness :
  Contains (writeResults exampleBuckets)
    ("- " +:+
     "CNAME for a.test is: shop.myshopify.com. (found matching fingerprint - vulnerable)"
     +:+ newline) = true.
Proof.
  apply writeResults_holds_every_line. left. unfold exampleBuckets. simpl.
  set_solver.
Defined.
